(** * The numeric kernels of the "Performance" notebook

    A shallow embedding of the functions defined in
    [Extras/Performance-solution.ipynb]: the trapezoidal integrator
    [trapz] and its Cython variants, [apply_trapz], [pairwise_py],
    the two gradient-descent loops and the Monte Carlo estimators of pi;
    and of the functions the SciPy and NumPy notebooks define.

    Floating point numbers are idealised as real numbers ([R]); Python
    integers are [Z]; C [int]s are [Z] restricted to the 32-bit range;
    exceptions and unchecked faults are explicit results.  The Monte
    Carlo estimator is also given in binary64 arithmetic, where rounding
    changes what it counts. *)

From Stdlib Require Import Reals Lra Lia ZArith List Bool.
From Stdlib Require Floats.SpecFloat Strings.String Strings.Ascii.
From Stdlib Require DecimalString.
Import ListNotations.

Open Scope R_scope.

(** ** Results of a call *)

(** The ways a call of the notebooks' functions can end without a value.
    [OutOfBounds] is not a Python exception: it records that code compiled
    with [boundscheck(False)] subscripted an array outside its shape.
    [LibraryError] stands for an exception raised inside an external
    routine whose code is not in the repository. *)
Inductive failure : Type :=
| ZeroDivisionError
| OverflowError
| AssertionError
| IndexError
| ValueError
| OutOfBounds
| LibraryError.

Inductive outcome (A : Type) : Type :=
| Ok (a : A)
| Raise (e : failure).

Arguments Ok {A} a.
Arguments Raise {A} e.

Definition bind {A B : Type} (m : outcome A) (k : A -> outcome B) : outcome B :=
  match m with
  | Ok a => k a
  | Raise e => Raise e
  end.

Notation "x <- m ;; k" := (bind m (fun x => k))
  (at level 61, m at next level, right associativity).

Definition failure_eqb (e1 e2 : failure) : bool :=
  match e1, e2 with
  | ZeroDivisionError, ZeroDivisionError
  | OverflowError, OverflowError
  | AssertionError, AssertionError
  | IndexError, IndexError
  | ValueError, ValueError
  | OutOfBounds, OutOfBounds
  | LibraryError, LibraryError => true
  | _, _ => false
  end.

(** [for i in range(n): s = body(i, s)], stopping at the first failure. *)
Fixpoint for_in {S : Type} (l : list nat) (body : nat -> S -> outcome S)
  (s : S) : outcome S :=
  match l with
  | [] => Ok s
  | i :: l' => s' <- body i s ;; for_in l' body s'
  end.

Definition for_range {S : Type} (n : nat) (body : nat -> S -> outcome S)
  (s : S) : outcome S :=
  for_in (seq 0 n) body s.

(** The number of iterations of [range(N)] for a Python or C integer. *)
Definition range_len (N : Z) : nat := Z.to_nat N.

(** ** C integers *)

Definition INT_MAX : Z := 2147483647.
Definition INT_MIN : Z := -2147483648.

(** Conversion of a Python integer to a parameter declared [int]. *)
Definition as_c_int (N : Z) : outcome Z :=
  if ((INT_MIN <=? N) && (N <=? INT_MAX))%Z then Ok N else Raise OverflowError.

(** ** Conversion of integers to floats *)

(** The first integer that [float(N)] cannot convert: it rounds to
    [2^1024], beyond the largest double [2^1024 - 2^971]. *)
Definition FLOAT_INT_LIMIT : Z := 2 ^ 1024 - 2 ^ 970.

(** [float(N)] for a Python integer, and the conversion of an integer
    operand of a float operation: [OverflowError] when the integer is too
    large, the integer itself otherwise (rounding is left out, as in all
    float arithmetic here). *)
Definition py_float (N : Z) : outcome R :=
  if (Z.abs N <? FLOAT_INT_LIMIT)%Z then Ok (IZR N) else Raise OverflowError.

(** ** The integers of numba *)

Definition INT64_MIN : Z := - 2 ^ 63.
Definition INT64_MAX : Z := 2 ^ 63 - 1.
Definition UINT64_MAX : Z := 2 ^ 64 - 1.

(** Arithmetic on a 64-bit signed integer wraps around. *)
Definition wrap_int64 (z : Z) : Z := ((z + 2 ^ 63) mod 2 ^ 64 - 2 ^ 63)%Z.

(** How [@jit] types an integer argument: as [int64] when it fits, as
    [uint64] up to [2^64 - 1]; a larger integer has no numba type and the
    call is refused. *)
Definition numba_int_arg (n : Z) : outcome Z :=
  if ((INT64_MIN <=? n) && (n <=? UINT64_MAX))%Z then Ok n
  else Raise ValueError.

(** A C [double] as the notebook's Cython code can produce it: a real
    number, or the infinity or NaN that an unchecked division by zero
    ([cdivision(True)]) leaves. *)
Inductive cdouble : Type :=
| finite (r : R)
| nonfinite.

(** ** The trapezoidal integrator *)

Module Trapz.

(** [def f(x): return 2*x*x + 3*x + 1]; [f2], [f3] and [f4] have the same
    body. *)
Definition f (x : R) : R := 2*x*x + 3*x + 1.
Definition f2 (x : R) : R := 2*x*x + 3*x + 1.
Definition f3 (x : R) : R := 2*x*x + 3*x + 1.
Definition f4 (x : R) : R := 2*x*x + 3*x + 1.

(** The loop [for i in range(N): x += h; sum_y += f(x)] on the pair
    [(x, sum_y)]. *)
Fixpoint trapz_loop (f : R -> R) (h : R) (iters : nat) (x sum_y : R) : R * R :=
  match iters with
  | O => (x, sum_y)
  | S iters' =>
      let x := x + h in
      let sum_y := sum_y + f x in
      trapz_loop f h iters' x sum_y
  end.

(** The statements after [h] is known. *)
Definition trapz_body (f : R -> R) (a b h : R) (N : Z) : R :=
  let sum_y := 0 in
  let x := a in
  let '(x, sum_y) := trapz_loop f h (range_len N) x sum_y in
  let sum_y := sum_y + 0.5 * (f a + f b) in
  sum_y * h.

(** [def trapz(f, a, b, N)]: [float(N)] raises when [N] is too large,
    and the division raises when [N] is zero. *)
Definition trapz (f : R -> R) (a b : R) (N : Z) : outcome R :=
  float_N <- py_float N ;;
  if (N =? 0)%Z then Raise ZeroDivisionError
  else
    let h := (b - a) / float_N in
    Ok (trapz_body f a b h N).

(** [%%cython def trapz2(f, a, b, N)]: the same untyped body, compiled. *)
Definition trapz2 (f : R -> R) (a b : R) (N : Z) : outcome R :=
  float_N <- py_float N ;;
  if (N =? 0)%Z then Raise ZeroDivisionError
  else
    let h := (b - a) / float_N in
    Ok (trapz_body f a b h N).

(** [def trapz3(f, double a, double b, int N)]: the argument [N] is
    converted to a C [int] on entry. *)
Definition trapz3 (f : R -> R) (a b : R) (N : Z) : outcome R :=
  N <- as_c_int N ;;
  if (N =? 0)%Z then Raise ZeroDivisionError
  else
    let h := (b - a) / IZR N in
    Ok (trapz_body f a b h N).

(** [@cython.cdivision(True) cpdef double trapz4(double a, double b, int N)]:
    [f4] is called directly, and the division is not checked. *)
Definition trapz4 (a b : R) (N : Z) : outcome cdouble :=
  N <- as_c_int N ;;
  if (N =? 0)%Z then Ok nonfinite
  else
    let h := (b - a) / IZR N in
    Ok (finite (trapz_body f4 a b h N)).

(** The value of a real-valued result seen as a C double. *)
Definition as_cdouble (r : outcome R) : outcome cdouble :=
  v <- r ;; Ok (finite v).

(** The composite trapezoidal rule as the notebook displays it above the
    definition: [h*(f(a)/2 + f(a+h) + ... + f(a+(N-1)h) + f(b)/2)] with
    [h = (b-a)/N]. *)
Fixpoint interior_sum (f : R -> R) (a h : R) (k : nat) : R :=
  match k with
  | O => 0
  | S k' => interior_sum f a h k' + f (a + INR k * h)
  end.

Definition composite_trapezoid (f : R -> R) (a b : R) (N : Z) : R :=
  let h := (b - a) / IZR N in
  h * (f a / 2 + interior_sum f a h (Z.to_nat N - 1) + f b / 2).

End Trapz.

(** ** Arrays *)

(** One-dimensional arrays are lists; a two-dimensional array carries its
    shape and its rows. *)
Record ndarray2 : Type := mk_ndarray2 {
  shape : nat * nat;
  rows : list (list R)
}.

(** What NumPy guarantees of every two-dimensional array. *)
Definition well_shaped (X : ndarray2) : Prop :=
  length (rows X) = fst (shape X) /\
  Forall (fun r => length r = snd (shape X)) (rows X).

Fixpoint set_nth {A : Type} (l : list A) (i : nat) (v : A) : list A :=
  match l, i with
  | [], _ => []
  | _ :: l', O => v :: l'
  | x :: l', S i' => x :: set_nth l' i' v
  end.

(** [v[i]] and [v[i] = x] for [0 <= i]; [e] is what an index outside
    the array gives: [IndexError] in Python, [OutOfBounds] where the
    check is compiled away. *)
Definition load {A : Type} (e : failure) (v : list A) (i : nat) : outcome A :=
  match nth_error v i with
  | Some x => Ok x
  | None => Raise e
  end.

Definition store {A : Type} (e : failure) (v : list A) (i : nat) (x : A)
  : outcome (list A) :=
  if (i <? length v)%nat then Ok (set_nth v i x) else Raise e.

Definition load2 (e : failure) (A : list (list R)) (i j : nat) : outcome R :=
  r <- load e A i ;; load e r j.

Definition store2 (e : failure) (A : list (list R)) (i j : nat) (x : R)
  : outcome (list (list R)) :=
  r <- load e A i ;;
  r' <- store e r j x ;;
  store e A i r'.

Definition getitem {A : Type} := @load A IndexError.
Definition setitem {A : Type} := @store A IndexError.

Definition getitem2 (X : ndarray2) (i j : nat) : outcome R :=
  load2 IndexError (rows X) i j.

Definition setitem2 (X : ndarray2) (i j : nat) (x : R) : outcome ndarray2 :=
  rs <- store2 IndexError (rows X) i j x ;;
  Ok (mk_ndarray2 (shape X) rs).

Definition np_ones (n : nat) : list R := repeat 1 n.

(** [np.random.rand(k)]: the first [k] values of the generator. *)
Definition np_random_rand (draws : nat -> R) (k : nat) : list R :=
  map draws (seq 0 k).

(** [X.T] as a value (the Python code only reads it). *)
Definition transpose (X : ndarray2) : ndarray2 :=
  let '(n, m) := shape X in
  mk_ndarray2 (m, n)
    (map (fun j => map (fun r => nth j r 0) (rows X)) (seq 0 m)).

(** [c * X] for a scalar [c]. *)
Definition scale2 (c : R) (X : ndarray2) : ndarray2 :=
  mk_ndarray2 (shape X) (map (map (Rmult c)) (rows X)).

Definition np_scale (c : R) (v : list R) : list R := map (Rmult c) v.

Fixpoint dot (u v : list R) : R :=
  match u, v with
  | a :: u', b :: v' => a * b + dot u' v'
  | _, _ => 0
  end.

(** [np.dot(A, v)] for a matrix and a vector. *)
Definition np_dot (A : ndarray2) (v : list R) : outcome (list R) :=
  if (snd (shape A) =? length v)%nat
  then Ok (map (fun r => dot r v) (rows A))
  else Raise ValueError.

Fixpoint zip_with {A B C : Type} (g : A -> B -> C) (u : list A) (v : list B)
  : list C :=
  match u, v with
  | a :: u', b :: v' => g a b :: zip_with g u' v'
  | _, _ => []
  end.

(** [u - v] with NumPy's broadcasting of a one-element operand. *)
Definition np_sub (u v : list R) : outcome (list R) :=
  if (length u =? length v)%nat then Ok (zip_with Rminus u v)
  else
    match u, v with
    | _, [b] => Ok (map (fun a => a - b) u)
    | [a], _ => Ok (map (fun b => a - b) v)
    | _, _ => Raise ValueError
    end.

(** [u -= v]: the result keeps the shape of [u]. *)
Definition np_isub (u v : list R) : outcome (list R) :=
  if (length u =? length v)%nat then Ok (zip_with Rminus u v)
  else
    match v with
    | [b] => Ok (map (fun a => a - b) u)
    | _ => Raise ValueError
    end.

(** [np.column_stack((c, X))] and [np.column_stack((X, c))] for a vector
    [c] and a matrix [X]. *)
Definition column_stack_left (c : list R) (X : ndarray2) : outcome ndarray2 :=
  if (length c =? fst (shape X))%nat
  then Ok (mk_ndarray2 (fst (shape X), S (snd (shape X)))
             (zip_with (fun a r => a :: r) c (rows X)))
  else Raise ValueError.

Definition column_stack_right (X : ndarray2) (c : list R) : outcome ndarray2 :=
  if (length c =? fst (shape X))%nat
  then Ok (mk_ndarray2 (fst (shape X), S (snd (shape X)))
             (zip_with (fun r a => r ++ [a]) (rows X) c))
  else Raise ValueError.

(** [range(1, n_iter)]. *)
Definition range_from_1 (n_iter : Z) : list nat :=
  seq 1 (Z.to_nat (n_iter - 1)).

(** Finite sums [g 0 + ... + g (n-1)], used to state results. *)
Fixpoint sum_upto (g : nat -> R) (n : nat) : R :=
  match n with
  | O => 0
  | S n' => sum_upto g n' + g n'
  end.

(** The entry [X[i,j]] of a well-shaped array, for statements. *)
Definition entry (X : ndarray2) (i j : nat) : R :=
  nth j (nth i (rows X) []) 0.

Section UninitialisedMemory.

(** What [np.empty] happens to find in the memory it returns. *)
Variable junk : R.

Definition np_empty (n : nat) : list R := repeat junk n.

Definition np_empty2 (m n : nat) : ndarray2 :=
  mk_ndarray2 (m, n) (repeat (repeat junk n) m).

(** ** Pairwise distances *)

(** [def pairwise_py(X)]; [jit_pairwise_py] is the same function under
    [@jit]. *)
Definition pairwise_py (X : ndarray2) : outcome ndarray2 :=
  let '(M, N) := shape X in
  let D := np_empty2 M M in
  for_range M (fun i D =>
    for_range M (fun j D =>
      d <- for_range N (fun k d =>
             xik <- getitem2 X i k ;;
             xjk <- getitem2 X j k ;;
             let tmp := xik - xjk in
             Ok (d + tmp * tmp)) 0 ;;
      setitem2 D i j (sqrt d)) D) D.

(** ** Gradient descent *)

(** [def gradient_descent(X, y, gamma = 1., n_iter = 10**3)]; [draws] is
    the sequence the random generator returns. *)
Definition gradient_descent (draws : nat -> R) (X : ndarray2) (y : list R)
  (gamma : R) (n_iter : Z) : outcome (list R) :=
  let '(n, P) := shape X in
  nX <- column_stack_left (np_ones n) X ;;
  let w := np_random_rand draws (P + 1) in
  for_in (range_from_1 n_iter) (fun i w =>
    d <- np_dot nX w ;;
    d <- np_sub d y ;;
    dE <- np_dot (scale2 2 (transpose nX)) d ;;
    np_isub w (np_scale gamma dE)) w.

(** The arrays [gradient_descent2] works on.  [nXT = nX.T] is a view: it
    has no memory of its own, and [nXT[a,b]] is the cell [nX[b,a]]. *)
Record gd2_state : Type := mk_gd2 {
  nX : list (list R);
  w : list R;
  tmp_d : list R;
  tmp_dE : list R
}.

Definition load_nX (s : gd2_state) (a b : nat) : outcome R :=
  load2 OutOfBounds (nX s) a b.

Definition load_nXT (s : gd2_state) (a b : nat) : outcome R :=
  load2 OutOfBounds (nX s) b a.

Definition store_nXT (s : gd2_state) (a b : nat) (x : R) : outcome gd2_state :=
  m <- store2 OutOfBounds (nX s) b a x ;;
  Ok (mk_gd2 m (w s) (tmp_d s) (tmp_dE s)).

Definition store_w (s : gd2_state) (j : nat) (x : R) : outcome gd2_state :=
  v <- store OutOfBounds (w s) j x ;;
  Ok (mk_gd2 (nX s) v (tmp_d s) (tmp_dE s)).

Definition store_tmp_d (s : gd2_state) (j : nat) (x : R) : outcome gd2_state :=
  v <- store OutOfBounds (tmp_d s) j x ;;
  Ok (mk_gd2 (nX s) (w s) v (tmp_dE s)).

Definition store_tmp_dE (s : gd2_state) (j : nat) (x : R) : outcome gd2_state :=
  v <- store OutOfBounds (tmp_dE s) j x ;;
  Ok (mk_gd2 (nX s) (w s) (tmp_d s) v).

(** The loop that doubles [nXT] before the iterations. *)
Definition gd2_double (n P : nat) (s : gd2_state) : outcome gd2_state :=
  for_range P (fun j s =>
    for_range n (fun k s =>
      x <- load_nXT s k j ;;
      store_nXT s k j (x * 2)) s) s.

(** One pass of the body of [for i in range(n_iter)]. *)
Definition gd2_iteration (n P : nat) (y : list R) (gamma : R) (s : gd2_state)
  : outcome gd2_state :=
  s <- for_range n (fun j s =>
         suma <- for_range (P + 1) (fun k suma =>
                   a <- load_nX s k j ;;
                   wk <- load OutOfBounds (w s) k ;;
                   Ok (suma + a * wk)) 0 ;;
         yj <- load OutOfBounds y j ;;
         store_tmp_d s j (suma - yj)) s ;;
  s <- for_range (P + 1) (fun j s =>
         suma <- for_range n (fun k suma =>
                   a <- load_nXT s k j ;;
                   t <- load OutOfBounds (tmp_d s) k ;;
                   Ok (suma + a * t)) 0 ;;
         store_tmp_dE s j suma) s ;;
  for_range (P + 1) (fun j s =>
    wj <- load OutOfBounds (w s) j ;;
    e <- load OutOfBounds (tmp_dE s) j ;;
    store_w s j (wj - gamma * e)) s.

(** [cpdef gradient_descent2(X, y, double gamma = 1., int n_iter = 1000)],
    compiled with [boundscheck(False)] and [wraparound(False)]. *)
Definition gradient_descent2 (draws : nat -> R) (X : ndarray2) (y : list R)
  (gamma : R) (n_iter : Z) : outcome (list R) :=
  n_iter <- as_c_int n_iter ;;
  let n := fst (shape X) in
  let P := snd (shape X) in
  nX <- column_stack_right X (np_ones n) ;;
  let s := mk_gd2 (rows nX) (np_random_rand draws (P + 1))
             (np_empty n) (np_empty (P + 1)) in
  s <- gd2_double n P s ;;
  s <- for_range (range_len n_iter) (fun i s => gd2_iteration n P y gamma s) s ;;
  Ok (w s).

End UninitialisedMemory.

(** ** Monte Carlo estimation of pi *)

(** [random()]: the next value of the generator; [pos] counts the values
    already taken. *)
Definition random (draws : nat -> R) (pos : nat) : R * nat :=
  (draws pos, S pos).

(** The loop [for i in range(n_samples)] on the pair [(acc, pos)]. *)
Fixpoint monte_carlo_loop (draws : nat -> R) (iters : nat) (acc : Z) (pos : nat)
  : Z * nat :=
  match iters with
  | O => (acc, pos)
  | S iters' =>
      let '(x, pos) := random draws pos in
      let '(y, pos) := random draws pos in
      let acc := if Rlt_dec (x ^ 2 + y ^ 2) 1 then (acc + 1)%Z else acc in
      monte_carlo_loop draws iters' acc pos
  end.

(** [def monte_carlo_pi_nojit(n_samples)], in exact real arithmetic:
    [4. * acc / n_samples] converts [acc], then [n_samples], to a
    float. *)
Definition monte_carlo_pi_nojit (draws : nat -> R) (n_samples : Z) : outcome R :=
  let acc := 0%Z in
  let '(acc, _) := monte_carlo_loop draws (range_len n_samples) acc 0 in
  float_acc <- py_float acc ;;
  float_n <- py_float n_samples ;;
  if (n_samples =? 0)%Z then Raise ZeroDivisionError
  else Ok (4 * float_acc / float_n).

(** The loop as [@jit(nopython=True)] compiles it: [acc] is a 64-bit
    signed integer. *)
Fixpoint monte_carlo_loop_jit (draws : nat -> R) (iters : nat) (acc : Z)
  (pos : nat) : Z * nat :=
  match iters with
  | O => (acc, pos)
  | S iters' =>
      let '(x, pos) := random draws pos in
      let '(y, pos) := random draws pos in
      let acc :=
        if Rlt_dec (x ^ 2 + y ^ 2) 1 then wrap_int64 (acc + 1) else acc in
      monte_carlo_loop_jit draws iters' acc pos
  end.

(** [@jit(nopython=True) def monte_carlo_pi_jit(n_samples)], in exact real
    arithmetic: the same body, compiled for a 64-bit [n_samples]. *)
Definition monte_carlo_pi_jit (draws : nat -> R) (n_samples : Z) : outcome R :=
  n_samples <- numba_int_arg n_samples ;;
  let acc := 0%Z in
  let '(acc, _) := monte_carlo_loop_jit draws (range_len n_samples) acc 0 in
  if (n_samples =? 0)%Z then Raise ZeroDivisionError
  else Ok (4 * IZR acc / IZR n_samples).

(** The number of the first [n] drawn pairs that fall inside the unit
    circle, for statements. *)
Fixpoint hits (draws : nat -> R) (n : nat) : nat :=
  match n with
  | O => O
  | S n' =>
      let x := draws (2 * n')%nat in
      let y := draws (2 * n' + 1)%nat in
      ((if Rlt_dec (x ^ 2 + y ^ 2) 1 then 1 else 0) + hits draws n')%nat
  end.

(** ** Applying the integrator to columns *)

Inductive np_dtype : Type :=
| float64
| int64
| int32
| object_.

Definition np_dtype_eqb (d1 d2 : np_dtype) : bool :=
  match d1, d2 with
  | float64, float64 | int64, int64 | int32, int32 | object_, object_ => true
  | _, _ => false
  end.

(** [np.float] and [np.int] name the dtypes of Python's [float] and
    [int]. *)
Definition np_float : np_dtype := float64.
Definition np_int : np_dtype := int64.

(** A one-dimensional array passed as an untyped [np.ndarray]. *)
Record column (A : Type) : Type := mk_column {
  dtype : np_dtype;
  items : list A
}.

Arguments mk_column {A} dtype items.
Arguments dtype {A} c.
Arguments items {A} c.

Definition len {A : Type} (c : column A) : nat := length (items c).

(** The two [assert] statements of [apply_trapz]. *)
Definition dtypes_accepted (col_a col_b : column R) (col_n : column Z) : bool :=
  np_dtype_eqb (dtype col_a) np_float &&
  np_dtype_eqb (dtype col_b) np_float &&
  np_dtype_eqb (dtype col_n) np_int.

Definition lengths_accepted (col_a col_b : column R) (col_n : column Z) : bool :=
  let n := len col_n in
  (len col_a =? len col_b)%nat && (len col_b =? n)%nat.

(** [cpdef np.ndarray[double] apply_trapz(np.ndarray col_a,
    np.ndarray col_b, np.ndarray col_n)]; [junk] is what [np.empty]
    returns. *)
Definition apply_trapz (junk : cdouble) (col_a col_b : column R)
  (col_n : column Z) : outcome (list cdouble) :=
  if negb (dtypes_accepted col_a col_b col_n) then Raise AssertionError
  else
    let n := len col_n in
    if negb (lengths_accepted col_a col_b col_n) then Raise AssertionError
    else
      let res := repeat junk n in
      for_range (len col_a) (fun i res =>
        a <- getitem (items col_a) i ;;
        b <- getitem (items col_b) i ;;
        N <- getitem (items col_n) i ;;
        v <- Trapz.trapz4 a b N ;;
        setitem res i v) res.

(** ** Statements about gradient descent *)

(** The entry [(i, k)] of [X] with a leading column of ones. *)
Definition bias_augmented (X : ndarray2) (i k : nat) : R :=
  match k with
  | O => 1
  | S k' => entry X i k'
  end.

(** The prediction [Xb w] for row [i]. *)
Definition prediction (X : ndarray2) (w : list R) (i : nat) : R :=
  sum_upto (fun k => bias_augmented X i k * nth k w 0) (snd (shape X) + 1).

(** The update as the notebook's text displays it:
    [w - gamma * grad_e] with [grad_e = 2 Xb^T (y - Xb w)]. *)
Definition displayed_grad_e (X : ndarray2) (y w : list R) (j : nat) : R :=
  2 * sum_upto (fun i => bias_augmented X i j * (nth i y 0 - prediction X w i))
        (fst (shape X)).

Definition displayed_update (X : ndarray2) (y : list R) (gamma : R)
  (w : list R) : list R :=
  map (fun j => nth j w 0 - gamma * displayed_grad_e X y w j)
    (seq 0 (snd (shape X) + 1)).

(** The algorithm as displayed: [n_iter] updates from the random start. *)
Definition displayed_gradient_descent (draws : nat -> R) (X : ndarray2)
  (y : list R) (gamma : R) (n_iter : Z) : list R :=
  Nat.iter (Z.to_nat n_iter) (displayed_update X y gamma)
    (np_random_rand draws (snd (shape X) + 1)).

(** The update with the residual [Xb w - y]:
    [w - gamma * dE] with [dE = 2 Xb^T (Xb w - y)]. *)
Definition residual_gradient (X : ndarray2) (y w : list R) (j : nat) : R :=
  2 * sum_upto (fun i => bias_augmented X i j * (prediction X w i - nth i y 0))
        (fst (shape X)).

Definition descent_update (X : ndarray2) (y : list R) (gamma : R)
  (w : list R) : list R :=
  map (fun j => nth j w 0 - gamma * residual_gradient X y w j)
    (seq 0 (snd (shape X) + 1)).

(** ** Inputs used as examples *)

(** A generator that always returns [0]. *)
Definition zero_draws : nat -> R := fun _ => 0.

(** One sample with the feature [0] and the target [1]. *)
Definition X1 : ndarray2 := mk_ndarray2 (1, 1)%nat [[0]].
Definition y1 : list R := [1].

(** Two samples with the feature [0] and the target [1]: a square
    bias-augmented matrix. *)
Definition X2 : ndarray2 := mk_ndarray2 (2, 1)%nat [[0]; [0]].
Definition y2 : list R := [1; 1].

(** Three samples with the feature [0] and the target [0]. *)
Definition X3 : ndarray2 := mk_ndarray2 (3, 1)%nat [[0]; [0]; [0]].
Definition y3 : list R := [0; 0; 0].

(** ** Statements about results *)

(** [never e m]: the call [m] does not end with the failure [e]. *)
Definition never {A : Type} (e : failure) (m : outcome A) : Prop :=
  m <> Raise e.

(** The Euclidean distance between rows [i] and [j] of [X]. *)
Definition distance (X : ndarray2) (i j : nat) : R :=
  sqrt (sum_upto (fun k => (entry X i k - entry X j k) ^ 2) (snd (shape X))).

(** ** Euclidean distance *)

(** [v.sum()]. *)
Definition np_sum (v : list R) : R := fold_left Rplus v 0.

(** [def euclidean(x, y): return np.sqrt(((x - y)**2).sum())]. *)
Definition euclidean (x y : list R) : outcome R :=
  d <- np_sub x y ;;
  Ok (sqrt (np_sum (map (fun t => t ^ 2) d))).

(** [cpdef double euclidean2(x, y)], compiled with [boundscheck(False)]
    and [wraparound(False)]: the loop runs over [x.shape[0]]. *)
Definition euclidean2 (x y : list R) : outcome R :=
  let diff := 0 in
  diff <- for_range (length x) (fun i diff =>
            xi <- load OutOfBounds x i ;;
            yi <- load OutOfBounds y i ;;
            Ok (diff + (xi - yi) ^ 2)) diff ;;
  Ok (sqrt diff).

(** ** List comprehensions *)

(** [def calculate_y(x): return 3*x**3 + 4*x**2 + 10*x - x**4], called on
    integers. *)
Definition calculate_y (x : Z) : Z :=
  (3 * x ^ 3 + 4 * x ^ 2 + 10 * x - x ^ 4)%Z.

(** [calcs = []; for x in range(n): calcs.append(calculate_y(x))]; the
    notebook's cell has [n = 10000]. *)
Definition calcs_by_append (n : nat) : list Z :=
  fold_left (fun calcs x => calcs ++ [calculate_y (Z.of_nat x)]) (seq 0 n) [].

(** [calcs = [calculate_y(x) for x in range(n)]]. *)
Definition calcs_by_comprehension (n : nat) : list Z :=
  map (fun x => calculate_y (Z.of_nat x)) (seq 0 n).

(** ** The arrays of [gradient_descent2] *)

(** The shapes the arrays of [gradient_descent2] have for [n] samples
    and [P] features: [nX] is [(n, P+1)], [w] and [tmp_dE] have [P+1]
    elements, [tmp_d] has [n]. *)
Definition gd2_shaped (n P : nat) (s : gd2_state) : Prop :=
  length (nX s) = n /\
  Forall (fun r => length r = (P + 1)%nat) (nX s) /\
  length (w s) = (P + 1)%nat /\
  length (tmp_d s) = n /\
  length (tmp_dE s) = (P + 1)%nat.

(** ** Functions of the SciPy notebook *)

(** [def pend(y, t, b, c)]: the right-hand side of the pendulum equation;
    unpacking [theta, omega = y] needs two elements. *)
Definition pend (y : list R) (t b c : R) : outcome (list R) :=
  match y with
  | [theta; omega] =>
      let dydt := [omega; - b * omega - c * sin theta] in
      Ok dydt
  | _ => Raise ValueError
  end.

(** [def func(x, y): return x*(1-x)*np.cos(4*np.pi*x) *
    np.sin(4*np.pi*y**2)**2]. *)
Definition func (x y : R) : R :=
  x * (1 - x) * cos (4 * PI * x) * sin (4 * PI * y ^ 2) ^ 2.

(** ** Binary64 arithmetic *)

Module Binary64.

Import SpecFloat.

Definition prec : Z := 53.
Definition emax : Z := 1024.

Definition mul : spec_float -> spec_float -> spec_float := SFmul prec emax.
Definition add : spec_float -> spec_float -> spec_float := SFadd prec emax.
Definition div : spec_float -> spec_float -> spec_float := SFdiv prec emax.
Definition lt : spec_float -> spec_float -> bool := SFltb.

(** The double nearest to [m * 2^e]. *)
Definition of_scaled (m e : Z) : spec_float :=
  binary_normalize prec emax m e false.

(** The double nearest to an integer. *)
Definition of_int (z : Z) : spec_float := of_scaled z 0.

(** The real number a double stands for (zero for the values that are
    not numbers). *)
Definition to_R (x : spec_float) : R :=
  match x with
  | S754_finite s m e =>
      let v :=
        if (0 <=? e)%Z then IZR (Zpos m * 2 ^ e)
        else IZR (Zpos m) / IZR (2 ^ (- e)) in
      if s then - v else v
  | _ => 0
  end.

End Binary64.

(** ** The Monte Carlo estimator in binary64 *)

(** The loop of [monte_carlo_pi_nojit] on doubles: [x**2 + y**2 < 1.] is
    decided on the rounded squares and the rounded sum.  [x**2] is taken
    as the correctly rounded product [x*x]. *)
Fixpoint monte_carlo_loop_binary64 (draws : nat -> SpecFloat.spec_float)
  (iters : nat) (acc : Z) (pos : nat) : Z * nat :=
  match iters with
  | O => (acc, pos)
  | S iters' =>
      let x := draws pos in
      let pos := S pos in
      let y := draws pos in
      let pos := S pos in
      let acc :=
        if Binary64.lt (Binary64.add (Binary64.mul x x) (Binary64.mul y y))
             (Binary64.of_int 1)
        then (acc + 1)%Z else acc in
      monte_carlo_loop_binary64 draws iters' acc pos
  end.

(** [def monte_carlo_pi_nojit(n_samples)] on doubles. *)
Definition monte_carlo_pi_nojit_binary64 (draws : nat -> SpecFloat.spec_float)
  (n_samples : Z) : outcome SpecFloat.spec_float :=
  let acc := 0%Z in
  let '(acc, _) :=
    monte_carlo_loop_binary64 draws (range_len n_samples) acc 0 in
  _ <- py_float acc ;;
  _ <- py_float n_samples ;;
  if (n_samples =? 0)%Z then Raise ZeroDivisionError
  else Ok (Binary64.div (Binary64.mul (Binary64.of_int 4) (Binary64.of_int acc))
             (Binary64.of_int n_samples)).

(** Two values [random()] can return, [1 - 2^-53] and [7 / 2^29], followed
    by zeros. *)
Definition rounding_draws (i : nat) : SpecFloat.spec_float :=
  match i with
  | O => Binary64.of_scaled (2 ^ 53 - 1) (-53)
  | S O => Binary64.of_scaled 7 (-29)
  | _ => Binary64.of_int 0
  end.

(** ** The other functions of the notebooks *)

(** [@jit def jit_pairwise_py(X)]: the body of [pairwise_py] under the
    decorator; [junk] is what [np.empty] returns. *)
Definition jit_pairwise_py (junk : R) (X : ndarray2) : outcome ndarray2 :=
  let '(M, N) := shape X in
  let D := np_empty2 junk M M in
  for_range M (fun i D =>
    for_range M (fun j D =>
      d <- for_range N (fun k d =>
             xik <- getitem2 X i k ;;
             xjk <- getitem2 X j k ;;
             let tmp := xik - xjk in
             Ok (d + tmp * tmp)) 0 ;;
      setitem2 D i j (sqrt d)) D) D.

(** [def integrand(x, a, b): return a*x**2 + b]. *)
Definition integrand (x a b : R) : R := a * x ^ 2 + b.

(** [def addsubtract(a,b)]. *)
Definition addsubtract (a b : R) : R :=
  if Rgt_dec a b then a - b else a + b.

(** A limit of integration: a number or [np.inf]. *)
Inductive limit : Type :=
| at_ (r : R)
| np_inf.

(** [integrate.dblquad(func, a, b, gfun, hfun)], an external routine:
    it returns the integral and an error estimate, or fails. *)
Definition dblquad_routine : Type :=
  (R -> R -> R) -> limit -> limit -> (R -> limit) -> (R -> limit) ->
  option (R * R).

Module Quad.

(** [def I(n): return integrate.dblquad(lambda t, x: np.exp(-x*t)/t**n,
    0, np.inf, lambda x: 1, lambda x: np.inf)]. *)
Definition I (dblquad : dblquad_routine) (n : Z) : outcome (R * R) :=
  match dblquad (fun t x => exp (- x * t) / powerRZ t n)
          (at_ 0) np_inf (fun x => at_ 1) (fun x => np_inf) with
  | Some result => Ok result
  | None => Raise LibraryError
  end.

End Quad.

Module PrintArray.

Import Ascii String.
#[local] Open Scope string_scope.

Definition str (n : nat) : string :=
  DecimalString.NilEmpty.string_of_uint (Nat.to_uint n).

(** How Python prints a tuple of integers. *)
Definition tuple_repr (t : list nat) : string :=
  match t with
  | [] => "()"
  | [n] => "(" ++ str n ++ ",)"
  | n :: rest =>
      "(" ++ str n ++ concat "" (map (fun m => ", " ++ str m) rest) ++ ")"
  end.

(** [def print_array(arr)], on the shape of [arr]: the three lines it
    prints. *)
Definition print_array (arr_shape : list nat) : list string :=
  [ "array ndim: " ++ str (List.length arr_shape);
    "array shape: " ++ tuple_repr arr_shape;
    "array size: " ++ str (fold_right Nat.mul 1%nat arr_shape) ].

End PrintArray.

(** ** Every function the notebooks define *)

(** A call of a function defined in the repository, with its
    arguments. *)
Inductive repo_call : Type :=
| call_f (x : R)
| call_f2 (x : R)
| call_f3 (x : R)
| call_f4 (x : R)
| call_trapz (g : R -> R) (a b : R) (N : Z)
| call_trapz2 (g : R -> R) (a b : R) (N : Z)
| call_trapz3 (g : R -> R) (a b : R) (N : Z)
| call_trapz4 (a b : R) (N : Z)
| call_calculate_y (x : Z)
| call_apply_trapz (junk : cdouble) (col_a col_b : column R) (col_n : column Z)
| call_euclidean (x y : list R)
| call_euclidean2 (x y : list R)
| call_pairwise_py (junk : R) (X : ndarray2)
| call_jit_pairwise_py (junk : R) (X : ndarray2)
| call_gradient_descent (draws : nat -> R) (X : ndarray2) (y : list R)
    (gamma : R) (n_iter : Z)
| call_gradient_descent2 (junk : R) (draws : nat -> R) (X : ndarray2)
    (y : list R) (gamma : R) (n_iter : Z)
| call_monte_carlo_pi_nojit (draws : nat -> R) (n_samples : Z)
| call_monte_carlo_pi_jit (draws : nat -> R) (n_samples : Z)
| call_integrand (x a b : R)
| call_I (dblquad : dblquad_routine) (n : Z)
| call_pend (y : list R) (t b c : R)
| call_func (x y : R)
| call_print_array (arr_shape : list nat)
| call_addsubtract (a b : R).

(** How a call ends, its value forgotten. *)
Definition ended {A : Type} (m : outcome A) : outcome unit :=
  _ <- m ;; Ok tt.

Definition returned {A : Type} (a : A) : outcome unit := Ok tt.

Definition how_it_ends (c : repo_call) : outcome unit :=
  match c with
  | call_f x => returned (Trapz.f x)
  | call_f2 x => returned (Trapz.f2 x)
  | call_f3 x => returned (Trapz.f3 x)
  | call_f4 x => returned (Trapz.f4 x)
  | call_trapz g a b N => ended (Trapz.trapz g a b N)
  | call_trapz2 g a b N => ended (Trapz.trapz2 g a b N)
  | call_trapz3 g a b N => ended (Trapz.trapz3 g a b N)
  | call_trapz4 a b N => ended (Trapz.trapz4 a b N)
  | call_calculate_y x => returned (calculate_y x)
  | call_apply_trapz junk col_a col_b col_n =>
      ended (apply_trapz junk col_a col_b col_n)
  | call_euclidean x y => ended (euclidean x y)
  | call_euclidean2 x y => ended (euclidean2 x y)
  | call_pairwise_py junk X => ended (pairwise_py junk X)
  | call_jit_pairwise_py junk X => ended (jit_pairwise_py junk X)
  | call_gradient_descent draws X y gamma n_iter =>
      ended (gradient_descent draws X y gamma n_iter)
  | call_gradient_descent2 junk draws X y gamma n_iter =>
      ended (gradient_descent2 junk draws X y gamma n_iter)
  | call_monte_carlo_pi_nojit draws n_samples =>
      ended (monte_carlo_pi_nojit draws n_samples)
  | call_monte_carlo_pi_jit draws n_samples =>
      ended (monte_carlo_pi_jit draws n_samples)
  | call_integrand x a b => returned (integrand x a b)
  | call_I dblquad n => ended (Quad.I dblquad n)
  | call_pend y t b c => ended (pend y t b c)
  | call_func x y => returned (func x y)
  | call_print_array arr_shape => returned (PrintArray.print_array arr_shape)
  | call_addsubtract a b => returned (addsubtract a b)
  end.

(** What the two [assert] statements of [apply_trapz] ask of its
    arguments. *)
Definition apply_trapz_precondition (col_a col_b : column R)
  (col_n : column Z) : Prop :=
  dtype col_a = float64 /\ dtype col_b = float64 /\ dtype col_n = int64 /\
  length (items col_a) = length (items col_b) /\
  length (items col_b) = length (items col_n).

(** ** More inputs used as examples *)

(** A generator that always returns [1/2]. *)
Definition half_draws : nat -> R := fun _ => 1 / 2.

(** The corners of a right triangle with sides 3, 4 and 5. *)
Definition triangle_345 : ndarray2 :=
  mk_ndarray2 (3, 2)%nat [[0; 0]; [3; 0]; [3; 4]].

(** One sample with the feature [2]. *)
Definition X_two : ndarray2 := mk_ndarray2 (1, 1)%nat [[2]].

(** * Properties *)

(** ** The trapezoidal integrator *)

Section TrapzFacts.

Import Trapz.

Lemma trapz_loop_snoc (g : R -> R) (h : R) (n : nat) (x s : R) :
  trapz_loop g h (S n) x s =
  let '(x', s') := trapz_loop g h n x s in (x' + h, s' + g (x' + h)).
Proof.
  revert x s; induction n as [|n IH]; intros x s.
  - reflexivity.
  - change (trapz_loop g h (S (S n)) x s)
      with (trapz_loop g h (S n) (x + h) (s + g (x + h))).
    rewrite IH. reflexivity.
Qed.

(** After [n] passes the loop has reached [a + n*h] and has added the
    values of [g] at [a + h], ..., [a + n*h]. *)
Lemma trapz_loop_value (g : R -> R) (a h : R) (n : nat) :
  trapz_loop g h n a 0 = (a + INR n * h, interior_sum g a h n).
Proof.
  induction n as [|n IH].
  - simpl. f_equal. lra.
  - rewrite trapz_loop_snoc, IH.
    cbn [interior_sum]. rewrite !S_INR.
    f_equal; [lra|]. f_equal. f_equal. lra.
Qed.

Lemma py_float_in_range (N : Z) :
  (Z.abs N < FLOAT_INT_LIMIT)%Z -> py_float N = Ok (IZR N).
Proof.
  intros HN. unfold py_float. apply Z.ltb_lt in HN. rewrite HN. reflexivity.
Qed.

Lemma py_float_out_of_range (N : Z) :
  (FLOAT_INT_LIMIT <= Z.abs N)%Z -> py_float N = Raise OverflowError.
Proof.
  intros HN. unfold py_float.
  destruct (Z.ltb_spec (Z.abs N) FLOAT_INT_LIMIT); [lia | reflexivity].
Qed.

(** Every C [int] and every 64-bit integer converts to a float. *)
Lemma machine_integers_convert :
  (INT_MAX < FLOAT_INT_LIMIT /\ Z.opp INT_MIN < FLOAT_INT_LIMIT /\
   UINT64_MAX < FLOAT_INT_LIMIT /\ Z.opp INT64_MIN < FLOAT_INT_LIMIT /\
   INT64_MAX < FLOAT_INT_LIMIT)%Z.
Proof. repeat split; vm_compute; reflexivity. Qed.

(** What [trapz] returns for a positive [N] that converts to a float:
    the displayed rule plus one more panel width times [g] at the right
    end of the grid. *)
Lemma trapz_value (g : R -> R) (a b : R) (N : Z) :
  (1 <= N < FLOAT_INT_LIMIT)%Z ->
  trapz g a b N =
  Ok (composite_trapezoid g a b N
      + (b - a) / IZR N * g b).
Proof.
  intros HN. unfold trapz. rewrite py_float_in_range by lia. cbn [bind].
  unfold trapz_body, composite_trapezoid, range_len.
  destruct (Z.eqb_spec N 0) as [->|_]; [lia|].
  rewrite trapz_loop_value.
  replace (Z.to_nat N) with (S (Z.to_nat N - 1)) at 1 by lia.
  cbn [interior_sum].
  replace (S (Z.to_nat N - 1)) with (Z.to_nat N) by lia.
  rewrite INR_IZR_INZ, Z2Nat.id by lia.
  assert (HN0 : IZR N <> 0) by (apply not_0_IZR; lia).
  replace (a + IZR N * ((b - a) / IZR N)) with b by (field; exact HN0).
  f_equal. lra.
Qed.

Lemma trapz_returns (g : R -> R) (a b : R) (N : Z) :
  N <> 0%Z -> (Z.abs N < FLOAT_INT_LIMIT)%Z -> exists v, trapz g a b N = Ok v.
Proof.
  intros HN Hfl. unfold trapz. rewrite py_float_in_range by exact Hfl.
  cbn [bind]. destruct (Z.eqb_spec N 0) as [E|_]; [contradiction|]. eauto.
Qed.

Lemma as_c_int_in_range (N : Z) :
  (INT_MIN <= N <= INT_MAX)%Z -> as_c_int N = Ok N.
Proof.
  intros [Hlo Hhi]. unfold as_c_int.
  apply Z.leb_le in Hlo, Hhi. rewrite Hlo, Hhi. reflexivity.
Qed.

(** C1 (the code departs from the claim).  On [f], [a = 0], [b = 1],
    [N = 1] the displayed rule gives [7/2], and [trapz] returns [19/2]:
    the loop already adds [f(b)], which is then added once more, halved. *)
Theorem trapz_overcounts_right_endpoint :
  trapz f 0 1 1 = Ok (19 / 2) /\
  composite_trapezoid f 0 1 1 = 7 / 2 /\
  trapz f 0 1 1 <> Ok (composite_trapezoid f 0 1 1).
Proof.
  assert (Hcode : trapz f 0 1 1 = Ok (19 / 2)).
  { unfold trapz. rewrite py_float_in_range by (vm_compute; reflexivity).
    cbn [bind]. unfold trapz_body. simpl. unfold f. f_equal. lra. }
  assert (Hrule : composite_trapezoid f 0 1 1 = 7 / 2).
  { unfold composite_trapezoid. simpl. unfold f. lra. }
  repeat split; trivial.
  rewrite Hcode, Hrule. intros E. injection E as E. lra.
Qed.

(** C4, as stated, fails: [trapz3] converts [N] to a C [int] and rejects
    [2^31], where [trapz] returns a value. *)
Lemma trapz3_rejects_large_N :
  trapz3 f3 0 1 2147483648 = Raise OverflowError /\
  trapz3 f3 0 1 2147483648 <> trapz f 0 1 2147483648.
Proof.
  assert (E : trapz3 f3 0 1 2147483648 = Raise OverflowError) by reflexivity.
  split; [exact E|].
  rewrite E.
  destruct (trapz_returns f 0 1 2147483648) as [v Hv];
    [lia | vm_compute; reflexivity |].
  rewrite Hv. discriminate.
Qed.

(** C4 (amended).  For [1 <= N <= INT_MAX], the range of a C [int], the
    three Cython variants return what [trapz] returns on
    [f(x) = 2*x*x + 3*x + 1]. *)
Theorem trapz_variants_agree (a b : R) (N : Z) :
  (1 <= N <= INT_MAX)%Z ->
  trapz2 f2 a b N = trapz f a b N /\
  trapz3 f3 a b N = trapz f a b N /\
  trapz4 a b N = as_cdouble (trapz f a b N).
Proof.
  intros [Hlo Hhi].
  split; [reflexivity|].
  unfold trapz3, trapz4.
  rewrite as_c_int_in_range by (unfold INT_MIN; lia).
  unfold trapz. pose proof machine_integers_convert as (Hfl & _).
  rewrite py_float_in_range by lia.
  unfold as_cdouble, bind.
  destruct (Z.eqb_spec N 0) as [->|_]; [lia|].
  split; reflexivity.
Qed.

Lemma trapz_variants_agree_witness :
  trapz2 f2 1 5 10000 = trapz f 1 5 10000 /\
  trapz3 f3 1 5 10000 = trapz f 1 5 10000 /\
  trapz4 1 5 10000 = as_cdouble (trapz f 1 5 10000).
Proof.
  apply (trapz_variants_agree 1 5 10000). unfold INT_MAX. lia.
Defined.

End TrapzFacts.

(** ** Monte Carlo estimation of pi *)

Section MonteCarloFacts.

Variable draws : nat -> R.

Lemma monte_carlo_loop_snoc (n : nat) (acc : Z) (pos : nat) :
  monte_carlo_loop draws (S n) acc pos =
  let '(acc', pos') := monte_carlo_loop draws n acc pos in
  let x := draws pos' in
  let y := draws (S pos') in
  (if Rlt_dec (x ^ 2 + y ^ 2) 1 then (acc' + 1)%Z else acc', S (S pos')).
Proof.
  revert acc pos; induction n as [|n IH]; intros acc pos.
  - reflexivity.
  - change (monte_carlo_loop draws (S (S n)) acc pos)
      with (monte_carlo_loop draws (S n)
              (if Rlt_dec (draws pos ^ 2 + draws (S pos) ^ 2) 1
               then (acc + 1)%Z else acc) (S (S pos))).
    rewrite IH. reflexivity.
Qed.

(** The loop counts the pairs inside the unit circle and takes two values
    of the generator for each. *)
Lemma monte_carlo_loop_value (n : nat) :
  monte_carlo_loop draws n 0 0 = (Z.of_nat (hits draws n), (2 * n)%nat).
Proof.
  induction n as [|n IH].
  - reflexivity.
  - rewrite monte_carlo_loop_snoc, IH.
    cbv zeta. cbn [hits].
    replace (2 * n + 1)%nat with (S (2 * n)) by lia.
    destruct (Rlt_dec (draws (2 * n)%nat ^ 2 + draws (S (2 * n)) ^ 2) 1);
      f_equal; lia.
Qed.

Lemma hits_le (n : nat) : (hits draws n <= n)%nat.
Proof.
  induction n as [|n IH]; [apply Nat.le_refl|].
  cbn [hits].
  destruct (Rlt_dec _ 1); lia.
Qed.

Lemma wrap_int64_in_range (z : Z) :
  (INT64_MIN <= z <= INT64_MAX)%Z -> wrap_int64 z = z.
Proof.
  unfold INT64_MIN, INT64_MAX, wrap_int64. intros Hz.
  rewrite Z.mod_small; lia.
Qed.

(** While the counter stays below [2^63] the compiled loop counts as the
    interpreted one does. *)
Lemma monte_carlo_loop_jit_no_wrap (n : nat) (acc : Z) (pos : nat) :
  (0 <= acc)%Z -> (acc + Z.of_nat n <= INT64_MAX)%Z ->
  monte_carlo_loop_jit draws n acc pos = monte_carlo_loop draws n acc pos.
Proof.
  revert acc pos; induction n as [|n IH]; intros acc pos Hacc Hmax;
    [reflexivity|].
  cbn [monte_carlo_loop_jit monte_carlo_loop random].
  rewrite wrap_int64_in_range by (unfold INT64_MIN; lia).
  destruct (Rlt_dec (draws pos ^ 2 + draws (S pos) ^ 2) 1); apply IH; lia.
Qed.

(** C8 (amended).  Under exact real arithmetic, for
    [1 <= n_samples < 2^1024 - 2^970] (the integers that convert to a
    float) the estimator returns [4*acc/n_samples], [acc] being the number
    of the [n_samples] drawn pairs with [x^2 + y^2 < 1]; the value lies in
    [[0, 4]]; and for [n_samples <= 2^63 - 1], where the counter of the
    jitted function cannot wrap, the jitted function returns the same on
    the same draws. *)
Theorem monte_carlo_pi_value (n_samples : Z) :
  (1 <= n_samples < FLOAT_INT_LIMIT)%Z ->
  let acc := hits draws (Z.to_nat n_samples) in
  monte_carlo_pi_nojit draws n_samples = Ok (4 * INR acc / IZR n_samples) /\
  0 <= 4 * INR acc / IZR n_samples <= 4 /\
  ((n_samples <= INT64_MAX)%Z ->
   monte_carlo_pi_jit draws n_samples = monte_carlo_pi_nojit draws n_samples).
Proof.
  intros Hn acc.
  assert (Hpos : 0 < IZR n_samples) by (apply IZR_lt; lia).
  pose proof (hits_le (Z.to_nat n_samples)) as Hle. fold acc in Hle.
  assert (Hacc : 0 <= INR acc <= IZR n_samples).
  { split; [apply pos_INR|].
    rewrite <- (Z2Nat.id n_samples) at 1 by lia.
    rewrite <- INR_IZR_INZ. apply le_INR, Hle. }
  assert (Hval : monte_carlo_pi_nojit draws n_samples
                 = Ok (4 * INR acc / IZR n_samples)).
  { unfold monte_carlo_pi_nojit, range_len.
    rewrite monte_carlo_loop_value. fold acc.
    rewrite !py_float_in_range by lia. cbn [bind].
    destruct (Z.eqb_spec n_samples 0) as [->|_]; [lia|].
    rewrite <- INR_IZR_INZ. reflexivity. }
  split; [exact Hval|]. split.
  - split.
    + apply Rmult_le_pos; [lra|]. apply Rlt_le, Rinv_0_lt_compat, Hpos.
    + apply Rmult_le_reg_r with (r := IZR n_samples); [exact Hpos|].
      unfold Rdiv. rewrite Rmult_assoc, Rinv_l by lra. lra.
  - intros H64. rewrite Hval. unfold monte_carlo_pi_jit, numba_int_arg, range_len.
    destruct (Z.leb_spec INT64_MIN n_samples) as [_|Hlo];
      [|unfold INT64_MIN in Hlo; lia].
    destruct (Z.leb_spec n_samples UINT64_MAX) as [_|Hhi];
      [|unfold INT64_MAX, UINT64_MAX in *; lia].
    cbn [andb bind].
    rewrite monte_carlo_loop_jit_no_wrap, monte_carlo_loop_value by lia.
    fold acc.
    destruct (Z.eqb_spec n_samples 0) as [->|_]; [lia|].
    rewrite <- INR_IZR_INZ. reflexivity.
Qed.

End MonteCarloFacts.

Lemma monte_carlo_pi_value_witness :
  monte_carlo_pi_nojit half_draws 2
  = Ok (4 * INR (hits half_draws (Z.to_nat 2)) / IZR 2) /\
  0 <= 4 * INR (hits half_draws (Z.to_nat 2)) / IZR 2 <= 4 /\
  ((2 <= INT64_MAX)%Z ->
   monte_carlo_pi_jit half_draws 2 = monte_carlo_pi_nojit half_draws 2).
Proof.
  apply (monte_carlo_pi_value half_draws 2).
  split; [lia | vm_compute; reflexivity].
Defined.

(** C8, as stated, fails: the code computes in binary64.  For the draws
    [x = 1 - 2^-53] and [y = 7 / 2^29] the pair lies inside the circle,
    so the claimed value for one sample is [4]; but the sum of the
    rounded squares rounds to [1.0], the test [x**2 + y**2 < 1.] fails,
    and the code returns [0.0]. *)
Lemma monte_carlo_pi_rounding_loses_a_hit :
  exists v,
    monte_carlo_pi_nojit_binary64 rounding_draws 1 = Ok v /\
    Binary64.to_R v = 0 /\
    4 * INR (hits (fun i => Binary64.to_R (rounding_draws i)) 1) / IZR 1 = 4.
Proof.
  exists (SpecFloat.S754_zero false).
  split; [vm_compute; reflexivity|]. split; [reflexivity|].
  assert (Hx : Binary64.to_R (rounding_draws 0)
               = IZR 9007199254740991 / IZR 9007199254740992).
  { replace (rounding_draws 0)
      with (SpecFloat.S754_finite false 9007199254740991 (-53))
      by (vm_compute; reflexivity).
    reflexivity. }
  assert (Hy : Binary64.to_R (rounding_draws 1)
               = IZR 7881299347898368 / IZR 604462909807314587353088).
  { replace (rounding_draws 1)
      with (SpecFloat.S754_finite false 7881299347898368 (-79))
      by (vm_compute; reflexivity).
    reflexivity. }
  cbn [hits Nat.mul Nat.add]. rewrite Hx, Hy.
  destruct (Rlt_dec _ 1) as [_|Hn]; [simpl; lra|].
  exfalso. apply Hn. lra.
Qed.

(** ** Loops and subscripts *)

Lemma bind_ok {A B : Type} (m : outcome A) (k : A -> outcome B) (a : A) :
  m = Ok a -> bind m k = k a.
Proof. intros ->. reflexivity. Qed.

(** A loop invariant for [for_in] over consecutive indices. *)
Lemma for_in_seq_invariant {S : Type} (Inv : nat -> S -> Prop)
  (body : nat -> S -> outcome S) (n : nat) :
  forall (start : nat) (s : S),
    Inv start s ->
    (forall i s, (start <= i < start + n)%nat -> Inv i s ->
                 exists s', body i s = Ok s' /\ Inv (Datatypes.S i) s') ->
    exists s', for_in (seq start n) body s = Ok s' /\ Inv (start + n)%nat s'.
Proof.
  induction n as [|n IH]; intros start s Hs Hbody.
  - exists s. rewrite Nat.add_0_r. split; [reflexivity | exact Hs].
  - destruct (Hbody start s) as (s1 & E1 & H1); [lia | exact Hs |].
    destruct (IH (Datatypes.S start) s1 H1) as (s2 & E2 & H2).
    { intros i t Hi. apply Hbody. lia. }
    exists s2. cbn [seq for_in]. rewrite E1. cbn [bind].
    split; [exact E2|].
    replace (start + Datatypes.S n)%nat with (Datatypes.S start + n)%nat by lia.
    exact H2.
Qed.

Lemma for_range_invariant {S : Type} (Inv : nat -> S -> Prop)
  (body : nat -> S -> outcome S) (n : nat) (s : S) :
  Inv O s ->
  (forall i s, (i < n)%nat -> Inv i s ->
               exists s', body i s = Ok s' /\ Inv (Datatypes.S i) s') ->
  exists s', for_range n body s = Ok s' /\ Inv n s'.
Proof.
  intros Hs Hbody.
  apply (for_in_seq_invariant Inv body n O s Hs).
  intros i t Hi. apply Hbody. lia.
Qed.

Lemma never_Ok {A : Type} (e : failure) (a : A) : never e (Ok a).
Proof. discriminate. Qed.

Lemma never_Raise {A : Type} (e e' : failure) :
  failure_eqb e e' = false -> never e (@Raise A e').
Proof.
  intros H E. injection E as E. subst e'. destruct e; discriminate.
Qed.

Lemma never_bind {A B : Type} (e : failure) (m : outcome A)
  (k : A -> outcome B) :
  never e m -> (forall a, never e (k a)) -> never e (bind m k).
Proof.
  intros Hm Hk. destruct m as [a|e']; cbn [bind]; [apply Hk|].
  intros E. apply Hm. injection E as ->. reflexivity.
Qed.

Lemma never_for_in {S : Type} (e : failure) (body : nat -> S -> outcome S)
  (l : list nat) :
  (forall i s, never e (body i s)) -> forall s, never e (for_in l body s).
Proof.
  intros Hbody. induction l as [|i l IH]; intros s; cbn [for_in].
  - apply never_Ok.
  - apply never_bind; [apply Hbody | exact IH].
Qed.

Lemma never_for_range {S : Type} (e : failure) (body : nat -> S -> outcome S)
  (n : nat) (s : S) :
  (forall i s, never e (body i s)) -> never e (for_range n body s).
Proof. intros H. apply never_for_in, H. Qed.

Lemma never_load {A : Type} (e e' : failure) (v : list A) (i : nat) :
  failure_eqb e e' = false -> never e (load e' v i).
Proof.
  intros H. unfold load. destruct (nth_error v i);
    [apply never_Ok | apply never_Raise, H].
Qed.

Lemma never_store {A : Type} (e e' : failure) (v : list A) (i : nat) (x : A) :
  failure_eqb e e' = false -> never e (store e' v i x).
Proof.
  intros H. unfold store. destruct (i <? length v)%nat;
    [apply never_Ok | apply never_Raise, H].
Qed.

Lemma never_if {A : Type} (e : failure) (c : bool) (m1 m2 : outcome A) :
  never e m1 -> never e m2 -> never e (if c then m1 else m2).
Proof. destruct c; trivial. Qed.

Create HintDb never.
#[local] Hint Resolve never_Ok never_Raise never_load never_store : never.

(** Splits a call into its binds, loops and subscripts. *)
Ltac never_step :=
  first
    [ apply never_bind; [|intros ?]
    | apply never_for_range; intros ? ?
    | apply never_for_in; intros ? ?
    | apply never_if
    | apply never_Ok
    | apply never_load; reflexivity
    | apply never_store; reflexivity
    | apply never_Raise; reflexivity ].

Ltac never_solve := repeat never_step.

Lemma load_in_range {A : Type} (e : failure) (v : list A) (i : nat) (d : A) :
  (i < length v)%nat -> load e v i = Ok (nth i v d).
Proof.
  intros Hi. unfold load.
  destruct (nth_error v i) as [x|] eqn:E.
  - f_equal. symmetry. apply nth_error_nth, E.
  - apply nth_error_None in E. lia.
Qed.

Lemma store_in_range {A : Type} (e : failure) (v : list A) (i : nat) (x : A) :
  (i < length v)%nat -> store e v i x = Ok (set_nth v i x).
Proof.
  intros Hi. unfold store. apply Nat.ltb_lt in Hi. rewrite Hi. reflexivity.
Qed.

Lemma set_nth_length {A : Type} (v : list A) (i : nat) (x : A) :
  length (set_nth v i x) = length v.
Proof.
  revert i; induction v as [|a v IH]; intros [|i]; cbn; auto.
Qed.

Lemma nth_set_nth {A : Type} (v : list A) (i j : nat) (x d : A) :
  (i < length v)%nat ->
  nth j (set_nth v i x) d = if (j =? i)%nat then x else nth j v d.
Proof.
  revert i j; induction v as [|a v IH]; intros i j Hi; cbn in Hi; [lia|].
  destruct i as [|i], j as [|j]; cbn; auto.
  apply IH. lia.
Qed.

Lemma Forall_set_nth {A : Type} (Q : A -> Prop) (v : list A) (i : nat) (x : A) :
  Forall Q v -> Q x -> Forall Q (set_nth v i x).
Proof.
  intros Hv Hx. revert i; induction Hv as [|a v Ha Hv IH]; intros [|i]; cbn;
    constructor; auto.
Qed.

Lemma well_shaped_row (A : ndarray2) (i : nat) :
  well_shaped A -> (i < fst (shape A))%nat ->
  length (nth i (rows A) []) = snd (shape A).
Proof.
  intros [Hlen Hrows] Hi.
  rewrite Forall_forall in Hrows. apply Hrows, nth_In. lia.
Qed.

(** Reading inside the shape returns the entry. *)
Lemma getitem2_entry (A : ndarray2) (i j : nat) :
  well_shaped A -> (i < fst (shape A))%nat -> (j < snd (shape A))%nat ->
  getitem2 A i j = Ok (entry A i j).
Proof.
  intros HA Hi Hj. unfold getitem2, load2, entry.
  rewrite (load_in_range _ _ _ []) by (destruct HA; lia).
  cbn [bind]. apply load_in_range.
  rewrite well_shaped_row; assumption.
Qed.

(** Writing inside the shape changes that entry and no other. *)
Lemma setitem2_entry (D : ndarray2) (i j : nat) (x : R) :
  well_shaped D -> (i < fst (shape D))%nat -> (j < snd (shape D))%nat ->
  exists D',
    setitem2 D i j x = Ok D' /\ shape D' = shape D /\ well_shaped D' /\
    forall i' j',
      entry D' i' j' = if ((i' =? i) && (j' =? j))%nat then x else entry D i' j'.
Proof.
  intros HD Hi Hj.
  pose proof (well_shaped_row D i HD Hi) as Hrow.
  destruct HD as [Hlen Hrows].
  exists (mk_ndarray2 (shape D)
            (set_nth (rows D) i (set_nth (nth i (rows D) []) j x))).
  unfold setitem2, store2.
  rewrite (load_in_range _ _ _ []) by lia. cbn [bind].
  rewrite store_in_range by lia. cbn [bind].
  rewrite store_in_range by lia. cbn [bind].
  split; [reflexivity|]. split; [reflexivity|]. split.
  - split; cbn [rows shape].
    + rewrite set_nth_length. exact Hlen.
    + apply Forall_set_nth; [exact Hrows|].
      rewrite set_nth_length. exact Hrow.
  - intros i' j'. unfold entry. cbn [rows].
    rewrite nth_set_nth by lia.
    destruct (Nat.eqb_spec i' i) as [->|Hne]; cbn [andb]; [|reflexivity].
    apply nth_set_nth. lia.
Qed.

Lemma sum_upto_ext (g1 g2 : nat -> R) (n : nat) :
  (forall k, (k < n)%nat -> g1 k = g2 k) -> sum_upto g1 n = sum_upto g2 n.
Proof.
  induction n as [|n IH]; intros H; cbn [sum_upto]; [reflexivity|].
  rewrite IH, H by auto. reflexivity.
Qed.

Lemma sum_upto_zero (g : nat -> R) (n : nat) :
  (forall k, (k < n)%nat -> g k = 0) -> sum_upto g n = 0.
Proof.
  induction n as [|n IH]; intros H; cbn [sum_upto]; [reflexivity|].
  rewrite IH, H by auto. lra.
Qed.

(** ** Pairwise distances *)

Lemma distance_sym (X : ndarray2) (i j : nat) : distance X i j = distance X j i.
Proof.
  unfold distance. f_equal. apply sum_upto_ext. intros k _. ring.
Qed.

Lemma distance_diag (X : ndarray2) (i : nat) : distance X i i = 0.
Proof.
  unfold distance. rewrite sum_upto_zero; [apply sqrt_0|].
  intros k _. ring.
Qed.

Section PairwiseFacts.

Variable junk : R.
Variable X : ndarray2.
Hypothesis X_shaped : well_shaped X.

#[local] Abbreviation M := (fst (shape X)).
#[local] Abbreviation N := (snd (shape X)).

(** The innermost loop accumulates the squared differences of two rows. *)
Lemma pairwise_inner (i j : nat) :
  (i < M)%nat -> (j < M)%nat ->
  for_range N (fun k d =>
     xik <- getitem2 X i k ;;
     xjk <- getitem2 X j k ;;
     let tmp := xik - xjk in
     Ok (d + tmp * tmp)) 0
  = Ok (sum_upto (fun k => (entry X i k - entry X j k) ^ 2) N).
Proof.
  intros Hi Hj.
  match goal with |- for_range _ ?body _ = _ =>
    destruct (for_range_invariant
                (fun k d => d = sum_upto (fun k => (entry X i k - entry X j k) ^ 2) k)
                body N 0) as (d & E & Hd)
  end.
  - reflexivity.
  - intros k d Hk ->.
    rewrite !getitem2_entry by assumption. cbn [bind].
    eexists. split; [reflexivity|]. cbn [sum_upto]. ring.
  - rewrite E, Hd. reflexivity.
Qed.

#[local] Abbreviation square_shaped D := (shape D = (M, M) /\ well_shaped D).

(** The loop over [j] fills row [i] and leaves the other rows alone. *)
Lemma pairwise_row (i : nat) (D : ndarray2) :
  (i < M)%nat -> square_shaped D ->
  exists D',
    for_range M (fun j D =>
      d <- for_range N (fun k d =>
             xik <- getitem2 X i k ;;
             xjk <- getitem2 X j k ;;
             let tmp := xik - xjk in
             Ok (d + tmp * tmp)) 0 ;;
      setitem2 D i j (sqrt d)) D = Ok D' /\
    square_shaped D' /\
    (forall j, (j < M)%nat -> entry D' i j = distance X i j) /\
    (forall i' j, i' <> i -> entry D' i' j = entry D i' j).
Proof.
  intros Hi HD.
  match goal with |- exists D', for_range _ ?body _ = _ /\ _ =>
    destruct (for_range_invariant
                (fun j D' =>
                   square_shaped D' /\
                   (forall j', (j' < j)%nat -> entry D' i j' = distance X i j') /\
                   (forall i' j', i' <> i -> entry D' i' j' = entry D i' j'))
                body M D) as (D' & E & HD' & Hrow & Hrest)
  end.
  - split; [exact HD|]. split; [intros j' Hj'; lia | reflexivity].
  - intros j D1 Hj ((Hsh & Hws) & Hrow & Hrest).
    rewrite pairwise_inner by assumption. cbn [bind].
    destruct (setitem2_entry D1 i j
                (sqrt (sum_upto (fun k => (entry X i k - entry X j k) ^ 2) N)))
      as (D2 & E2 & Hsh2 & Hws2 & Hent);
      [exact Hws | rewrite Hsh; exact Hi | rewrite Hsh; exact Hj |].
    exists D2. split; [exact E2|]. split; [|split].
    + split; [congruence | exact Hws2].
    + intros j' Hj'. rewrite Hent, Nat.eqb_refl. cbn [andb].
      destruct (Nat.eqb_spec j' j) as [->|Hne]; [reflexivity|].
      apply Hrow. lia.
    + intros i' j' Hne. rewrite Hent.
      destruct (Nat.eqb_spec i' i) as [->|_]; [contradiction|].
      cbn [andb]. apply Hrest, Hne.
  - exists D'. auto.
Qed.

Lemma np_empty2_shaped (m n : nat) : well_shaped (np_empty2 junk m n).
Proof.
  split; cbn [np_empty2 rows shape fst snd].
  - apply repeat_length.
  - apply Forall_forall. intros r Hr.
    apply repeat_spec in Hr. subst r. apply repeat_length.
Qed.

Lemma pairwise_py_unfold :
  pairwise_py junk X =
  for_range M (fun i D =>
    for_range M (fun j D =>
      d <- for_range N (fun k d =>
             xik <- getitem2 X i k ;;
             xjk <- getitem2 X j k ;;
             let tmp := xik - xjk in
             Ok (d + tmp * tmp)) 0 ;;
      setitem2 D i j (sqrt d)) D) (np_empty2 junk M M).
Proof. unfold pairwise_py. destruct (shape X). reflexivity. Qed.

(** C9.  On an array of shape [(M, N)], [pairwise_py] returns an [M] by
    [M] array whose entry [(i, j)] is the square root of the sum over [k]
    of [(X[i,k] - X[j,k])^2]; the array is symmetric and its diagonal is
    zero. *)
Theorem pairwise_py_distances :
  exists D,
    pairwise_py junk X = Ok D /\
    shape D = (M, M) /\
    forall i j, (i < M)%nat -> (j < M)%nat ->
      getitem2 D i j = Ok (distance X i j) /\
      getitem2 D i j = getitem2 D j i /\
      getitem2 D i i = Ok 0.
Proof.
  rewrite pairwise_py_unfold.
  match goal with |- exists D, for_range _ ?body ?D0 = _ /\ _ =>
    destruct (for_range_invariant
                (fun i D =>
                   square_shaped D /\
                   forall i' j, (i' < i)%nat -> (j < M)%nat ->
                                entry D i' j = distance X i' j)
                body M D0) as (D & E & (Hsh & Hws) & Hent)
  end.
  - split; [split; [reflexivity | apply np_empty2_shaped]|].
    intros i' j Hi'. lia.
  - intros i D1 Hi (HD1 & Hdone).
    destruct (pairwise_row i D1 Hi HD1) as (D2 & E2 & HD2 & Hrow & Hrest).
    exists D2. split; [exact E2|]. split; [exact HD2|].
    intros i' j Hi' Hj.
    destruct (Nat.eq_dec i' i) as [->|Hne]; [apply Hrow, Hj|].
    rewrite Hrest by exact Hne. apply Hdone; [lia | exact Hj].
  - exists D. split; [exact E|]. split; [exact Hsh|].
    intros i j Hi Hj.
    rewrite !getitem2_entry by (try exact Hws; rewrite Hsh; assumption).
    rewrite !Hent by assumption.
    rewrite distance_diag, (distance_sym X j i). auto.
Qed.

End PairwiseFacts.

Lemma pairwise_py_distances_witness :
  exists D,
    pairwise_py 0 (mk_ndarray2 (2, 1)%nat [[0]; [1]]) = Ok D /\
    shape D = (2, 2)%nat /\
    forall i j, (i < 2)%nat -> (j < 2)%nat ->
      getitem2 D i j = Ok (distance (mk_ndarray2 (2, 1)%nat [[0]; [1]]) i j) /\
      getitem2 D i j = getitem2 D j i /\
      getitem2 D i i = Ok 0.
Proof.
  apply (pairwise_py_distances 0 (mk_ndarray2 (2, 1)%nat [[0]; [1]])).
  split; [reflexivity | repeat constructor].
Defined.

(** ** Assertions *)

Section AssertionFacts.

Import Trapz.

Lemma never_as_c_int (e : failure) (N : Z) :
  failure_eqb e OverflowError = false -> never e (as_c_int N).
Proof.
  intros H. unfold as_c_int.
  apply never_if; [apply never_Ok | apply never_Raise, H].
Qed.

Lemma never_py_float (e : failure) (N : Z) :
  failure_eqb e OverflowError = false -> never e (py_float N).
Proof.
  intros H. unfold py_float.
  apply never_if; [apply never_Ok | apply never_Raise, H].
Qed.

Lemma trapz_never_asserts (g : R -> R) (a b : R) (N : Z) :
  never AssertionError (trapz g a b N).
Proof.
  unfold trapz. apply never_bind; [apply never_py_float; reflexivity|].
  intros float_N. never_solve.
Qed.

Lemma trapz2_never_asserts (g : R -> R) (a b : R) (N : Z) :
  never AssertionError (trapz2 g a b N).
Proof.
  unfold trapz2. apply never_bind; [apply never_py_float; reflexivity|].
  intros float_N. never_solve.
Qed.

Lemma trapz3_never_asserts (g : R -> R) (a b : R) (N : Z) :
  never AssertionError (trapz3 g a b N).
Proof.
  unfold trapz3. apply never_bind; [apply never_as_c_int; reflexivity|].
  intros N'. never_solve.
Qed.

Lemma trapz4_never_asserts (a b : R) (N : Z) :
  never AssertionError (trapz4 a b N).
Proof.
  unfold trapz4. apply never_bind; [apply never_as_c_int; reflexivity|].
  intros N'. never_solve.
Qed.

Lemma pairwise_py_never_asserts (junk : R) (X : ndarray2) :
  never AssertionError (pairwise_py junk X).
Proof.
  unfold pairwise_py, setitem2, getitem2, store2, load2.
  destruct (shape X) as [M N]. never_solve.
Qed.

Lemma never_np_dot (A : ndarray2) (v : list R) :
  never AssertionError (np_dot A v).
Proof. unfold np_dot. never_solve. Qed.

Lemma never_np_sub (u v : list R) : never AssertionError (np_sub u v).
Proof.
  unfold np_sub. apply never_if; [apply never_Ok|].
  destruct u as [|a [|a' u]], v as [|b [|b' v]]; never_solve.
Qed.

Lemma never_np_isub (u v : list R) : never AssertionError (np_isub u v).
Proof.
  unfold np_isub. apply never_if; [apply never_Ok|].
  destruct v as [|b [|b' v]]; never_solve.
Qed.

Lemma gradient_descent_never_asserts (draws : nat -> R) (X : ndarray2)
  (y : list R) (gamma : R) (n_iter : Z) :
  never AssertionError (gradient_descent draws X y gamma n_iter).
Proof.
  unfold gradient_descent, column_stack_left.
  destruct (shape X) as [n P].
  apply never_bind; [never_solve|]. intros nX.
  apply never_for_in. intros i w.
  apply never_bind; [apply never_np_dot|]. intros d.
  apply never_bind; [apply never_np_sub|]. intros d'.
  apply never_bind; [apply never_np_dot|]. intros dE.
  apply never_np_isub.
Qed.

Lemma gradient_descent2_never_asserts (junk : R) (draws : nat -> R)
  (X : ndarray2) (y : list R) (gamma : R) (n_iter : Z) :
  never AssertionError (gradient_descent2 junk draws X y gamma n_iter).
Proof.
  unfold gradient_descent2.
  apply never_bind; [apply never_as_c_int; reflexivity|]. intros n'.
  unfold column_stack_right, gd2_double, gd2_iteration, load_nX, load_nXT,
    store_nXT, store_w, store_tmp_d, store_tmp_dE, store2, load2.
  never_solve.
Qed.

Lemma monte_carlo_never_asserts (draws : nat -> R) (n_samples : Z) :
  never AssertionError (monte_carlo_pi_nojit draws n_samples) /\
  never AssertionError (monte_carlo_pi_jit draws n_samples).
Proof.
  split.
  - unfold monte_carlo_pi_nojit.
    destruct (monte_carlo_loop draws (range_len n_samples) 0 0) as [acc pos].
    apply never_bind; [apply never_py_float; reflexivity|]. intros float_acc.
    apply never_bind; [apply never_py_float; reflexivity|]. intros float_n.
    never_solve.
  - unfold monte_carlo_pi_jit, numba_int_arg.
    apply never_bind; [never_solve|]. intros n.
    destruct (monte_carlo_loop_jit draws (range_len n) 0 0) as [acc pos].
    never_solve.
Qed.

Lemma jit_pairwise_py_never_asserts (junk : R) (X : ndarray2) :
  never AssertionError (jit_pairwise_py junk X).
Proof.
  unfold jit_pairwise_py, setitem2, getitem2, store2, load2.
  destruct (shape X) as [M N]. never_solve.
Qed.

Lemma euclidean_never_asserts (x y : list R) :
  never AssertionError (euclidean x y).
Proof.
  unfold euclidean. apply never_bind; [apply never_np_sub|].
  intros d. apply never_Ok.
Qed.

Lemma euclidean2_never_asserts (x y : list R) :
  never AssertionError (euclidean2 x y).
Proof. unfold euclidean2. never_solve. Qed.

Lemma pend_never_asserts (y : list R) (t b c : R) :
  never AssertionError (pend y t b c).
Proof.
  unfold pend. destruct y as [|theta [|omega [|z y]]]; never_solve.
Qed.

Lemma I_never_asserts (dblquad : dblquad_routine) (n : Z) :
  never AssertionError (Quad.I dblquad n).
Proof. unfold Quad.I. destruct (dblquad _ _ _ _ _); never_solve. Qed.

Lemma ended_Raise {A : Type} (m : outcome A) (e : failure) :
  ended m = Raise e <-> m = Raise e.
Proof.
  unfold ended. destruct m as [a|e']; cbn [bind]; split;
    intros H; try discriminate; injection H as ->; reflexivity.
Qed.

Lemma np_dtype_eqb_eq (d1 d2 : np_dtype) :
  np_dtype_eqb d1 d2 = true <-> d1 = d2.
Proof. destruct d1, d2; cbn; split; intros H; congruence. Qed.

(** The two assertions hold exactly on the arguments they describe. *)
Lemma apply_trapz_guards (col_a col_b : column R) (col_n : column Z) :
  dtypes_accepted col_a col_b col_n && lengths_accepted col_a col_b col_n
  = true <->
  apply_trapz_precondition col_a col_b col_n.
Proof.
  unfold dtypes_accepted, lengths_accepted, apply_trapz_precondition, len,
    np_float, np_int.
  rewrite !andb_true_iff, !np_dtype_eqb_eq, !Nat.eqb_eq. tauto.
Qed.

(** A loop does not end with [e] when its body cannot, on the states an
    invariant describes. *)
Lemma never_for_in_invariant {S : Type} (Inv : S -> Prop) (e : failure)
  (body : nat -> S -> outcome S) (l : list nat) :
  (forall j s, In j l -> Inv s ->
     never e (body j s) /\ forall s', body j s = Ok s' -> Inv s') ->
  forall s, Inv s -> never e (for_in l body s).
Proof.
  induction l as [|j l IH]; intros Hbody s Hs; cbn [for_in];
    [apply never_Ok|].
  destruct (Hbody j s (or_introl eq_refl) Hs) as [Hnever Hinv].
  destruct (body j s) as [s'|e'] eqn:E; cbn [bind]; [|exact Hnever].
  apply IH; [|apply Hinv; reflexivity].
  intros k t Hk. apply Hbody. right. exact Hk.
Qed.

(** After the assertions every subscript of [apply_trapz] is inside its
    array. *)
Lemma apply_trapz_never_IndexError (junk : cdouble) (col_a col_b : column R)
  (col_n : column Z) :
  never IndexError (apply_trapz junk col_a col_b col_n).
Proof.
  unfold apply_trapz.
  destruct (dtypes_accepted col_a col_b col_n); cbn [negb];
    [|apply never_Raise; reflexivity].
  destruct (lengths_accepted col_a col_b col_n) eqn:Hlen; cbn [negb];
    [|apply never_Raise; reflexivity].
  unfold lengths_accepted in Hlen.
  apply andb_true_iff in Hlen as [Hab Hbn]. apply Nat.eqb_eq in Hab, Hbn.
  unfold len in *.
  apply (never_for_in_invariant
           (fun res => length res = length (items col_n))).
  - intros i res Hi Hres. apply in_seq in Hi. unfold getitem, setitem.
    rewrite (load_in_range _ (items col_a) i 0) by lia. cbn [bind].
    rewrite (load_in_range _ (items col_b) i 0) by lia. cbn [bind].
    rewrite (load_in_range _ (items col_n) i 0%Z) by lia. cbn [bind].
    destruct (Trapz.trapz4 _ _ _) as [v|e] eqn:Ev; cbn [bind].
    + rewrite store_in_range by lia. split; [apply never_Ok|].
      intros s' E. injection E as <-. rewrite set_nth_length. exact Hres.
    + split; [|discriminate].
      intros E. injection E as ->.
      unfold Trapz.trapz4, as_c_int in Ev.
      destruct ((INT_MIN <=? _) && _)%Z; cbn [bind] in Ev;
        [destruct (_ =? 0)%Z|]; discriminate.
  - apply repeat_length.
Qed.




End AssertionFacts.

(** ** Gradient descent *)

Lemma sum_upto_shift (g : nat -> R) (n : nat) :
  sum_upto g (S n) = g O + sum_upto (fun k => g (S k)) n.
Proof.
  induction n as [|n IH].
  - cbn [sum_upto]. lra.
  - change (sum_upto g (S (S n))) with (sum_upto g (S n) + g (S n)).
    rewrite IH. cbn [sum_upto]. lra.
Qed.

Lemma sum_upto_scale (c : R) (g : nat -> R) (n : nat) :
  sum_upto (fun k => c * g k) n = c * sum_upto g n.
Proof.
  induction n as [|n IH]; cbn [sum_upto]; [lra|]. rewrite IH. lra.
Qed.

Lemma dot_sum (u v : list R) :
  length u = length v ->
  dot u v = sum_upto (fun k => nth k u 0 * nth k v 0) (length u).
Proof.
  revert v; induction u as [|a u IH]; intros [|b v] Hlen;
    try discriminate; [reflexivity|].
  cbn [dot length]. rewrite sum_upto_shift. cbn [nth].
  rewrite IH by (cbn in Hlen; lia). reflexivity.
Qed.

Lemma zip_with_length {A B C : Type} (g : A -> B -> C) (u : list A)
  (v : list B) :
  length u = length v -> length (zip_with g u v) = length u.
Proof.
  revert v; induction u as [|a u IH]; intros [|b v] Hlen;
    try discriminate; [reflexivity|].
  cbn [zip_with length]. rewrite IH by (cbn in Hlen; lia). reflexivity.
Qed.

Lemma nth_zip_with {A B C : Type} (g : A -> B -> C) (u : list A) (v : list B)
  (i : nat) (da : A) (db : B) (dc : C) :
  length u = length v -> (i < length u)%nat ->
  nth i (zip_with g u v) dc = g (nth i u da) (nth i v db).
Proof.
  revert v i; induction u as [|a u IH]; intros [|b v] i Hlen Hi;
    try discriminate; [cbn in Hi; lia|].
  destruct i as [|i]; [reflexivity|].
  cbn [zip_with nth]. apply IH; cbn in Hlen, Hi; lia.
Qed.

Lemma nth_map_in {A B : Type} (g : A -> B) (l : list A) (i : nat) (da : A)
  (db : B) :
  (i < length l)%nat -> nth i (map g l) db = g (nth i l da).
Proof.
  intros Hi. rewrite (nth_indep _ db (g da)) by (rewrite length_map; exact Hi).
  apply map_nth.
Qed.

Lemma np_random_rand_length (draws : nat -> R) (k : nat) :
  length (np_random_rand draws k) = k.
Proof. unfold np_random_rand. rewrite length_map. apply length_seq. Qed.

Lemma descent_update_length (X : ndarray2) (y : list R) (gamma : R)
  (w : list R) :
  length (descent_update X y gamma w) = (snd (shape X) + 1)%nat.
Proof. unfold descent_update. rewrite length_map. apply length_seq. Qed.

Section GradientDescentFacts.

Variable X : ndarray2.
Variable y : list R.
Variable gamma : R.
Hypothesis X_shaped : well_shaped X.
Hypothesis y_length : length y = fst (shape X).

#[local] Abbreviation n := (fst (shape X)).
#[local] Abbreviation P := (snd (shape X)).

(** The rows of [np.column_stack((np.ones(n), X))]. *)
#[local] Abbreviation nX_rows :=
  (zip_with (fun a r => a :: r) (np_ones n) (rows X)).

Lemma nX_rows_length : length nX_rows = n.
Proof.
  destruct X_shaped as [Hlen _].
  rewrite zip_with_length; unfold np_ones; rewrite repeat_length; lia.
Qed.

Lemma nX_row (i : nat) :
  (i < n)%nat -> nth i nX_rows [] = 1 :: nth i (rows X) [].
Proof.
  intros Hi. destruct X_shaped as [Hlen _].
  rewrite (nth_zip_with _ _ _ _ 1 [])
    by (unfold np_ones; rewrite repeat_length; lia).
  unfold np_ones. rewrite nth_repeat. reflexivity.
Qed.

Lemma nX_entry (i k : nat) :
  (i < n)%nat -> nth k (nth i nX_rows []) 0 = bias_augmented X i k.
Proof.
  intros Hi. rewrite nX_row by exact Hi. destruct k; reflexivity.
Qed.

Lemma nX_row_length (i : nat) :
  (i < n)%nat -> length (nth i nX_rows []) = (P + 1)%nat.
Proof.
  intros Hi. rewrite nX_row by exact Hi. cbn [length].
  rewrite well_shaped_row by assumption. lia.
Qed.

(** One pass of the loop body on weights of the right length. *)
Lemma gradient_descent_pass (w : list R) :
  length w = (P + 1)%nat ->
  (d <- np_dot (mk_ndarray2 (n, S P) nX_rows) w ;;
   d <- np_sub d y ;;
   dE <- np_dot (scale2 2 (transpose (mk_ndarray2 (n, S P) nX_rows))) d ;;
   np_isub w (np_scale gamma dE))
  = Ok (descent_update X y gamma w).
Proof.
  intros Hw.
  unfold np_dot at 1. cbn [shape snd rows].
  replace (S P =? length w)%nat with true by (symmetry; apply Nat.eqb_eq; lia).
  cbn [bind].
  unfold np_sub. rewrite length_map, nX_rows_length, y_length, Nat.eqb_refl.
  cbn [bind].
  unfold np_dot, transpose, scale2. cbn [shape snd fst rows].
  rewrite zip_with_length by (rewrite length_map, nX_rows_length; lia).
  rewrite length_map, nX_rows_length, Nat.eqb_refl. cbn [bind].
  unfold np_isub, np_scale. rewrite !length_map, length_seq.
  replace (length w =? S P)%nat with true by (symmetry; apply Nat.eqb_eq; lia).
  f_equal.
  apply (nth_ext _ _ 0 0).
  { rewrite zip_with_length, descent_update_length; [lia|].
    rewrite !length_map, length_seq. lia. }
  rewrite zip_with_length by (rewrite !length_map, length_seq; lia).
  intros j Hj.
  rewrite (nth_zip_with _ _ _ _ 0 0)
    by (rewrite ?length_map, ?length_seq; lia).
  unfold descent_update.
  rewrite (nth_map_in _ (seq 0 (P + 1)) j O) by (rewrite length_seq; lia).
  rewrite seq_nth by lia. cbn [Nat.add].
  f_equal.
  rewrite (nth_map_in _ _ j 0) by (rewrite !length_map, length_seq; lia).
  f_equal.
  rewrite (nth_map_in _ _ j []) by (rewrite !length_map, length_seq; lia).
  rewrite (nth_map_in _ _ j []) by (rewrite !length_map, length_seq; lia).
  rewrite (nth_map_in _ (seq 0 (S P)) j O) by (rewrite length_seq; lia).
  rewrite seq_nth by lia. cbn [Nat.add].
  rewrite dot_sum.
  2:{ rewrite !length_map, nX_rows_length, zip_with_length;
      rewrite ?length_map, ?nX_rows_length; lia. }
  rewrite !length_map, nX_rows_length.
  unfold residual_gradient. rewrite <- sum_upto_scale.
  apply sum_upto_ext. intros i Hi.
  rewrite (nth_map_in _ _ i 0) by (rewrite length_map, nX_rows_length; lia).
  rewrite (nth_map_in _ _ i []) by (rewrite nX_rows_length; lia).
  rewrite nX_entry by exact Hi.
  rewrite (nth_zip_with _ _ _ _ 0 0)
    by (rewrite ?length_map, ?nX_rows_length; lia).
  rewrite (nth_map_in _ _ i []) by (rewrite nX_rows_length; lia).
  rewrite dot_sum by (rewrite nX_row_length; lia).
  rewrite nX_row_length by exact Hi.
  unfold prediction.
  rewrite (sum_upto_ext _ (fun k => bias_augmented X i k * nth k w 0));
    [ring|].
  intros k _. rewrite nX_entry by exact Hi. reflexivity.
Qed.

End GradientDescentFacts.

(** A loop whose body does not look at the index iterates a function. *)
Lemma for_in_iterates {S : Type} (Inv : S -> Prop) (upd : S -> S)
  (body : nat -> S -> outcome S) :
  (forall i s, Inv s -> body i s = Ok (upd s) /\ Inv (upd s)) ->
  forall (l : list nat) (s : S),
    Inv s -> for_in l body s = Ok (Nat.iter (length l) upd s).
Proof.
  intros Hbody. induction l as [|i l IH]; intros s Hs; [reflexivity|].
  destruct (Hbody i s Hs) as [E Hs']. cbn [for_in length].
  rewrite E. cbn [bind]. rewrite IH by exact Hs'.
  rewrite Nat.iter_succ_r. reflexivity.
Qed.

(** What [gradient_descent] returns: the residual update, applied once
    for each index in [range(1, n_iter)], to the first draws. *)
Lemma gradient_descent_iterates (draws : nat -> R) (X : ndarray2)
  (y : list R) (gamma : R) (n_iter : Z) :
  well_shaped X -> length y = fst (shape X) ->
  gradient_descent draws X y gamma n_iter =
  Ok (Nat.iter (Z.to_nat (n_iter - 1)) (descent_update X y gamma)
        (np_random_rand draws (snd (shape X) + 1))).
Proof.
  intros HX Hy. unfold gradient_descent.
  pose proof (gradient_descent_pass X y gamma HX Hy) as Hpass.
  pose proof (descent_update_length X y gamma) as Hlen.
  destruct X as [[n P] rs]. cbn [shape rows fst snd] in *.
  unfold column_stack_left. cbn [shape rows fst snd].
  unfold np_ones at 1. rewrite repeat_length, Nat.eqb_refl. cbn [bind].
  rewrite (for_in_iterates (fun w => length w = (P + 1)%nat)
             (descent_update (mk_ndarray2 (n, P) rs) y gamma)).
  - unfold range_from_1. rewrite length_seq. reflexivity.
  - intros i w Hw. split; [apply Hpass, Hw | apply Hlen].
  - apply np_random_rand_length.
Qed.

(** C2 (amended).  [gradient_descent] starts from [P+1] random draws and
    each iteration replaces [w] by [w - gamma * dE] with
    [dE = 2 Xb^T (Xb w - y)], [Xb] being [X] with a leading column of
    ones: what it returns is that update applied to the draws once for
    every index of [range(1, n_iter)], that is [n_iter - 1] times. *)
Theorem gradient_descent_residual_updates (draws : nat -> R) (X : ndarray2)
  (y : list R) (gamma : R) (n_iter : Z) :
  well_shaped X -> length y = fst (shape X) ->
  gradient_descent draws X y gamma n_iter =
  Ok (Nat.iter (Z.to_nat (n_iter - 1)) (descent_update X y gamma)
        (np_random_rand draws (snd (shape X) + 1))) /\
  forall w j,
    length w = (snd (shape X) + 1)%nat -> (j < snd (shape X) + 1)%nat ->
    nth j (descent_update X y gamma w) 0
    = nth j w 0
      - gamma
        * (2 * sum_upto
                 (fun i => bias_augmented X i j
                           * (sum_upto (fun k => bias_augmented X i k * nth k w 0)
                                (snd (shape X) + 1)
                              - nth i y 0))
                 (fst (shape X))).
Proof.
  intros HX Hy. split.
  - apply gradient_descent_iterates; assumption.
  - intros w j Hw Hj. unfold descent_update.
    rewrite (nth_map_in _ _ j O) by (rewrite length_seq; exact Hj).
    rewrite seq_nth by exact Hj. reflexivity.
Qed.

Lemma gradient_descent_residual_updates_witness :
  gradient_descent half_draws X2 y2 1 3 =
  Ok (Nat.iter (Z.to_nat (3 - 1)) (descent_update X2 y2 1)
        (np_random_rand half_draws (snd (shape X2) + 1))) /\
  forall w j,
    length w = (snd (shape X2) + 1)%nat -> (j < snd (shape X2) + 1)%nat ->
    nth j (descent_update X2 y2 1 w) 0
    = nth j w 0
      - 1
        * (2 * sum_upto
                 (fun i => bias_augmented X2 i j
                           * (sum_upto (fun k => bias_augmented X2 i k * nth k w 0)
                                (snd (shape X2) + 1)
                              - nth i y2 0))
                 (fst (shape X2))).
Proof.
  apply (gradient_descent_residual_updates half_draws X2 y2 1 3).
  - split; [reflexivity | repeat constructor].
  - reflexivity.
Defined.

(** The updates on one sample with the feature [0] and the target [1]. *)

Lemma descent_update_example (a : R) :
  descent_update X1 y1 1 [a; 0] = [2 - a; 0].
Proof.
  unfold descent_update, residual_gradient, prediction, bias_augmented, entry.
  cbn. f_equal; [lra | f_equal; lra].
Qed.

Lemma displayed_update_example (a : R) :
  displayed_update X1 y1 1 [a; 0] = [3 * a - 2; 0].
Proof.
  unfold displayed_update, displayed_grad_e, prediction, bias_augmented, entry.
  cbn. f_equal; [lra | f_equal; lra].
Qed.

Lemma displayed_orbit_example (k : nat) :
  exists a, a <= 0 /\ Nat.iter k (displayed_update X1 y1 1) [0; 0] = [a; 0].
Proof.
  induction k as [|k (a & Ha & E)].
  - exists 0. split; [lra | reflexivity].
  - exists (3 * a - 2). split; [lra|].
    rewrite Nat.iter_succ, E. apply displayed_update_example.
Qed.

Lemma gradient_descent_example :
  gradient_descent zero_draws X1 y1 1 2 = Ok [2; 0].
Proof.
  rewrite gradient_descent_iterates;
    [| split; [reflexivity | repeat constructor] | reflexivity].
  change (Z.to_nat (2 - 1)) with 1%nat. rewrite Nat.iter_succ. cbn [Nat.iter nat_rect].
  change (np_random_rand zero_draws (snd (shape X1) + 1)) with [0; 0].
  rewrite descent_update_example. f_equal. f_equal. lra.
Qed.

(** C2, as stated, fails.  On one sample the code returns [[2; 0]] for
    [n_iter = 2]; the displayed update, whose gradient has the opposite
    sign, gives a non-positive first weight however often it is applied. *)
Lemma gradient_descent_not_as_displayed :
  gradient_descent zero_draws X1 y1 1 2
  <> Ok (displayed_gradient_descent zero_draws X1 y1 1 2) /\
  forall k,
    gradient_descent zero_draws X1 y1 1 2
    <> Ok (Nat.iter k (displayed_update X1 y1 1) (np_random_rand zero_draws 2)).
Proof.
  assert (H : forall k,
             gradient_descent zero_draws X1 y1 1 2
             <> Ok (Nat.iter k (displayed_update X1 y1 1)
                      (np_random_rand zero_draws 2))).
  { intros k. rewrite gradient_descent_example.
    change (np_random_rand zero_draws 2) with [0; 0].
    destruct (displayed_orbit_example k) as (a & Ha & ->).
    intros E. injection E as E. lra. }
  split; [apply (H 2%nat) | exact H].
Qed.

(** ** The Cython gradient descent *)

(** Evaluates a call on concrete arrays, leaving the real arithmetic. *)
Ltac eval_kernel := cbv -[Rplus Rmult Rminus IZR].

Lemma gradient_descent_X2 :
  gradient_descent zero_draws X2 y2 1 2 = Ok [4; 0].
Proof. eval_kernel. f_equal; f_equal; [lra | f_equal; lra]. Qed.

Lemma gradient_descent2_X2_one :
  gradient_descent2 0 zero_draws X2 y2 1 1 = Ok [2; 1].
Proof. eval_kernel. f_equal; f_equal; [lra | f_equal; lra]. Qed.

Lemma gradient_descent2_X2_two :
  gradient_descent2 0 zero_draws X2 y2 1 2 = Ok [-6; -3].
Proof. eval_kernel. f_equal; f_equal; [lra | f_equal; lra]. Qed.

(** C3 (the code departs from the claim).  On two samples, where every
    subscript of [gradient_descent2] is inside its array, the two functions
    return different weights for [n_iter = 2]; they still differ when each
    makes exactly one pass ([n_iter = 2] against [n_iter = 1]). *)
Theorem gradient_descent2_differs :
  gradient_descent zero_draws X2 y2 1 2 = Ok [4; 0] /\
  gradient_descent2 0 zero_draws X2 y2 1 2 = Ok [-6; -3] /\
  gradient_descent2 0 zero_draws X2 y2 1 1 = Ok [2; 1] /\
  gradient_descent2 0 zero_draws X2 y2 1 2
  <> gradient_descent zero_draws X2 y2 1 2.
Proof.
  rewrite gradient_descent_X2, gradient_descent2_X2_one,
    gradient_descent2_X2_two.
  repeat split. intros E. injection E as E _. lra.
Qed.

(** C10 (the code departs from the claim).  On three samples of one
    feature the doubling loop subscripts [nXT], of shape [(2, 3)], at
    row [2]. *)
Theorem gradient_descent2_out_of_bounds :
  gradient_descent2 0 zero_draws X3 y3 1 1000 = Raise OutOfBounds.
Proof. reflexivity. Qed.

(** * Further properties of the kernels *)

(** ** The integrator on all of its inputs *)

Section TrapzEdges.

Import Trapz.

(** X1.  Under exact real arithmetic, for every function [g], reals
    [a], [b] and [1 <= N < 2^1024 - 2^970] (the integers [float(N)]
    converts), [trapz] returns the displayed composite rule plus one
    panel width times [g(b)]: the right end point is counted one and a
    half times. *)
Theorem trapz_surplus (g : R -> R) (a b : R) (N : Z) :
  (1 <= N < FLOAT_INT_LIMIT)%Z ->
  trapz g a b N =
  Ok (composite_trapezoid g a b N + (b - a) / IZR N * g b).
Proof.
  intros HN. unfold trapz. rewrite py_float_in_range by lia. cbn [bind].
  unfold trapz_body, composite_trapezoid, range_len.
  destruct (Z.eqb_spec N 0) as [->|_]; [lia|].
  rewrite trapz_loop_value.
  replace (Z.to_nat N) with (S (Z.to_nat N - 1)) at 1 by lia.
  cbn [interior_sum].
  replace (S (Z.to_nat N - 1)) with (Z.to_nat N) by lia.
  rewrite INR_IZR_INZ, Z2Nat.id by lia.
  assert (HN0 : IZR N <> 0) by (apply not_0_IZR; lia).
  replace (a + IZR N * ((b - a) / IZR N)) with b by (field; exact HN0).
  f_equal. lra.
Qed.

Lemma trapz_surplus_witness :
  trapz f 1 5 4 = Ok (composite_trapezoid f 1 5 4 + (5 - 1) / IZR 4 * f 5).
Proof.
  apply (trapz_surplus f 1 5 4). split; [lia | vm_compute; reflexivity].
Defined.

Lemma interior_sum_const (c a h : R) (k : nat) :
  interior_sum (fun _ => c) a h k = INR k * c.
Proof.
  induction k as [|k IH].
  - simpl. lra.
  - cbn [interior_sum]. rewrite IH, S_INR. lra.
Qed.

(** X2.  Under exact real arithmetic, on a constant function [c] and
    [1 <= N < 2^1024 - 2^970] panels, [trapz] returns [c*(b-a)*(N+1)/N],
    not the integral [c*(b-a)]: the excess is [c*(b-a)/N]. *)
Theorem trapz_constant (c a b : R) (N : Z) :
  (1 <= N < FLOAT_INT_LIMIT)%Z ->
  trapz (fun _ => c) a b N = Ok (c * (b - a) * (IZR N + 1) / IZR N).
Proof.
  intros HN. unfold trapz. rewrite py_float_in_range by lia. cbn [bind].
  unfold trapz_body, range_len.
  destruct (Z.eqb_spec N 0) as [->|_]; [lia|].
  rewrite trapz_loop_value, interior_sum_const.
  rewrite INR_IZR_INZ, Z2Nat.id by lia.
  assert (HN0 : IZR N <> 0) by (apply not_0_IZR; lia).
  replace (0.5 * (c + c)) with c by lra.
  f_equal. field. exact HN0.
Qed.

Lemma trapz_constant_witness :
  trapz (fun _ => 3) 1 5 4 = Ok (3 * (5 - 1) * (IZR 4 + 1) / IZR 4).
Proof.
  apply (trapz_constant 3 1 5 4). split; [lia | vm_compute; reflexivity].
Defined.

(** X3.  Under exact real arithmetic, for a negative [N] that
    [float(N)] converts ([- (2^1024 - 2^970) < N < 0]) the loop body never
    runs: [trapz] returns the half sum of the end values times the
    negative step [(b-a)/N]. *)
Theorem trapz_negative_panels (g : R -> R) (a b : R) (N : Z) :
  (- FLOAT_INT_LIMIT < N < 0)%Z ->
  trapz g a b N = Ok (0.5 * (g a + g b) * ((b - a) / IZR N)).
Proof.
  intros HN. unfold trapz. rewrite py_float_in_range by lia. cbn [bind].
  unfold trapz_body, range_len.
  destruct (Z.eqb_spec N 0) as [->|_]; [lia|].
  replace (Z.to_nat N) with O by lia. cbn [trapz_loop].
  f_equal. lra.
Qed.

Lemma trapz_negative_panels_witness :
  trapz f 1 5 (-2) = Ok (0.5 * (f 1 + f 5) * ((5 - 1) / IZR (-2))).
Proof.
  apply (trapz_negative_panels f 1 5 (-2)).
  split; [vm_compute; reflexivity | lia].
Defined.

(** X4.  Under exact real arithmetic, on an interval of no width
    [trapz] returns [0], whatever the function, for every [N] other than
    zero that [float(N)] converts. *)
Theorem trapz_empty_interval (g : R -> R) (a : R) (N : Z) :
  N <> 0%Z -> (Z.abs N < FLOAT_INT_LIMIT)%Z -> trapz g a a N = Ok 0.
Proof.
  intros HN Hfl. unfold trapz. rewrite py_float_in_range by exact Hfl.
  cbn [bind]. unfold trapz_body.
  destruct (Z.eqb_spec N 0) as [E|_]; [contradiction|].
  destruct (trapz_loop g ((a - a) / IZR N) (range_len N) a 0) as [x s].
  f_equal. unfold Rdiv. ring.
Qed.

Lemma trapz_empty_interval_witness : trapz f 2 2 7 = Ok 0.
Proof.
  apply (trapz_empty_interval f 2 7); [lia | vm_compute; reflexivity].
Defined.

(** X5.  The typed variants against [trapz] on every integer [N]:
    outside the range of a C [int] they raise [OverflowError]; inside it
    [trapz3] returns what [trapz] returns, zero included, and [trapz4]
    does so except at [N = 0], where [trapz] raises [ZeroDivisionError]
    and [trapz4], compiled with [cdivision(True)], returns a double that
    is not finite. *)
Theorem trapz_typed_variants_on_all_N (a b : R) (N : Z) :
  ((INT_MIN <= N <= INT_MAX)%Z /\
   trapz3 f3 a b N = trapz f a b N /\
   ((N <> 0%Z /\ trapz4 a b N = as_cdouble (trapz f a b N)) \/
    (N = 0%Z /\ trapz f a b N = Raise ZeroDivisionError /\
     trapz4 a b N = Ok nonfinite))) \/
  (~ (INT_MIN <= N <= INT_MAX)%Z /\
   trapz3 f3 a b N = Raise OverflowError /\
   trapz4 a b N = Raise OverflowError).
Proof.
  unfold trapz3, trapz4, as_c_int.
  destruct (Z.leb_spec INT_MIN N) as [Hlo|Hlo];
    destruct (Z.leb_spec N INT_MAX) as [Hhi|Hhi]; cbn [andb bind];
    [left | right; split; [lia | split; reflexivity] ..].
  split; [lia|].
  pose proof machine_integers_convert as (Hmax & Hmin & _).
  unfold trapz. rewrite py_float_in_range by lia. cbn [bind].
  split; [reflexivity|]. unfold as_cdouble.
  destruct (Z.eqb_spec N 0) as [E|E]; cbn [bind]; [right | left]; auto.
Qed.

(** X27.  A count too large for a float is refused: for
    [|N| >= 2^1024 - 2^970], [float(N)] raises [OverflowError], and so do
    [trapz] and [trapz2], before they compute anything; for such a
    negative [n_samples], whose loop does not run, so does
    [monte_carlo_pi_nojit]. *)
Theorem huge_counts_overflow (g : R -> R) (a b : R) (draws : nat -> R)
  (N : Z) :
  (FLOAT_INT_LIMIT <= Z.abs N)%Z ->
  trapz g a b N = Raise OverflowError /\
  trapz2 g a b N = Raise OverflowError /\
  ((N < 0)%Z -> monte_carlo_pi_nojit draws N = Raise OverflowError).
Proof.
  intros HN. unfold trapz, trapz2, monte_carlo_pi_nojit, range_len.
  rewrite py_float_out_of_range by exact HN. cbn [bind].
  repeat split. intros Hneg.
  replace (Z.to_nat N) with O by lia. cbn [monte_carlo_loop].
  rewrite py_float_in_range by (vm_compute; reflexivity). reflexivity.
Qed.

Lemma huge_counts_overflow_witness :
  trapz f 0 1 (- 2 ^ 1024) = Raise OverflowError /\
  trapz2 f 0 1 (- 2 ^ 1024) = Raise OverflowError /\
  ((- 2 ^ 1024 < 0)%Z ->
   monte_carlo_pi_nojit zero_draws (- 2 ^ 1024) = Raise OverflowError).
Proof.
  apply (huge_counts_overflow f 0 1 zero_draws (- 2 ^ 1024)).
  vm_compute. discriminate.
Defined.

End TrapzEdges.

(** ** Monte Carlo estimation: edges and the draws it uses *)

(** X6.  Without samples there is no estimate.  For [n_samples = 0]
    both estimators raise [ZeroDivisionError].  For a negative
    [n_samples] the loop does not run and the result is zero: in
    [monte_carlo_pi_nojit] when [float(n_samples)] exists
    ([n_samples > - (2^1024 - 2^970)]), in [monte_carlo_pi_jit] when
    [n_samples] fits a 64-bit integer. *)
Theorem monte_carlo_pi_without_samples (draws : nat -> R) (n_samples : Z) :
  (- FLOAT_INT_LIMIT < n_samples < 0)%Z ->
  monte_carlo_pi_nojit draws n_samples = Ok 0 /\
  ((INT64_MIN <= n_samples)%Z -> monte_carlo_pi_jit draws n_samples = Ok 0) /\
  monte_carlo_pi_nojit draws 0 = Raise ZeroDivisionError /\
  monte_carlo_pi_jit draws 0 = Raise ZeroDivisionError.
Proof.
  intros Hn. split; [|split; [|split]].
  - unfold monte_carlo_pi_nojit, range_len.
    replace (Z.to_nat n_samples) with O by lia. cbn [monte_carlo_loop].
    rewrite !py_float_in_range by (cbn [Z.abs]; lia). cbn [bind].
    destruct (Z.eqb_spec n_samples 0) as [->|_]; [lia|].
    f_equal. unfold Rdiv. ring.
  - intros H64. unfold monte_carlo_pi_jit, numba_int_arg, range_len.
    destruct (Z.leb_spec INT64_MIN n_samples) as [_|Hlo]; [|lia].
    destruct (Z.leb_spec n_samples UINT64_MAX) as [_|Hhi];
      [|unfold UINT64_MAX in Hhi; lia].
    cbn [andb bind].
    replace (Z.to_nat n_samples) with O by lia. cbn [monte_carlo_loop_jit].
    destruct (Z.eqb_spec n_samples 0) as [->|_]; [lia|].
    f_equal. unfold Rdiv. ring.
  - unfold monte_carlo_pi_nojit. cbn [range_len Z.to_nat monte_carlo_loop].
    rewrite py_float_in_range by (vm_compute; reflexivity). reflexivity.
  - reflexivity.
Qed.

Lemma monte_carlo_pi_without_samples_witness :
  monte_carlo_pi_nojit half_draws (-3) = Ok 0 /\
  ((INT64_MIN <= -3)%Z -> monte_carlo_pi_jit half_draws (-3) = Ok 0) /\
  monte_carlo_pi_nojit half_draws 0 = Raise ZeroDivisionError /\
  monte_carlo_pi_jit half_draws 0 = Raise ZeroDivisionError.
Proof.
  apply (monte_carlo_pi_without_samples half_draws (-3)).
  split; [vm_compute; reflexivity | lia].
Defined.

Lemma hits_ext (draws1 draws2 : nat -> R) (n : nat) :
  (forall i, (i < 2 * n)%nat -> draws1 i = draws2 i) ->
  hits draws1 n = hits draws2 n.
Proof.
  induction n as [|n IH]; intros H; [reflexivity|].
  cbn [hits]. rewrite IH by (intros i Hi; apply H; lia).
  rewrite !H by lia. reflexivity.
Qed.

(** X7.  The estimate depends on the first [2 * n_samples] values of the
    generator only: two generators that agree on them give the same
    result. *)
Theorem monte_carlo_pi_uses_two_draws_per_sample (draws1 draws2 : nat -> R)
  (n_samples : Z) :
  (forall i, (i < 2 * Z.to_nat n_samples)%nat -> draws1 i = draws2 i) ->
  monte_carlo_pi_nojit draws1 n_samples = monte_carlo_pi_nojit draws2 n_samples.
Proof.
  intros H. unfold monte_carlo_pi_nojit, range_len.
  rewrite !monte_carlo_loop_value, (hits_ext draws1 draws2) by exact H.
  reflexivity.
Qed.

Lemma monte_carlo_pi_uses_two_draws_per_sample_witness :
  monte_carlo_pi_nojit zero_draws 1
  = monte_carlo_pi_nojit (fun i => if (i <? 2)%nat then 0 else 1) 1.
Proof.
  apply (monte_carlo_pi_uses_two_draws_per_sample zero_draws
           (fun i => if (i <? 2)%nat then 0 else 1) 1).
  intros i Hi. change (2 * Z.to_nat 1)%nat with 2%nat in Hi.
  destruct (Nat.ltb_spec i 2); [reflexivity | lia].
Defined.

(** ** Euclidean distance *)

Lemma fold_left_Rplus (v : list R) (a : R) :
  fold_left Rplus v a = a + sum_upto (fun k => nth k v 0) (length v).
Proof.
  revert a; induction v as [|b v IH]; intros a.
  - simpl. lra.
  - cbn [fold_left length]. rewrite IH, sum_upto_shift. cbn [nth]. lra.
Qed.

(** The loop of [euclidean2] while both arrays last. *)
Lemma euclidean2_loop (x y : list R) (m : nat) :
  (m <= length x)%nat -> (m <= length y)%nat ->
  for_range m (fun i diff =>
    xi <- load OutOfBounds x i ;;
    yi <- load OutOfBounds y i ;;
    Ok (diff + (xi - yi) ^ 2)) 0
  = Ok (sum_upto (fun k => (nth k x 0 - nth k y 0) ^ 2) m).
Proof.
  intros Hx Hy.
  match goal with |- for_range _ ?body _ = _ =>
    destruct (for_range_invariant
                (fun k d => d = sum_upto (fun k => (nth k x 0 - nth k y 0) ^ 2) k)
                body m 0) as (d & E & Hd)
  end.
  - reflexivity.
  - intros k d Hk ->.
    rewrite (load_in_range _ x k 0), (load_in_range _ y k 0) by lia.
    cbn [bind]. eexists. split; reflexivity.
  - rewrite E, Hd. reflexivity.
Qed.

Lemma euclidean_value (x y : list R) :
  length x = length y ->
  euclidean x y
  = Ok (sqrt (sum_upto (fun k => (nth k x 0 - nth k y 0) ^ 2) (length x))).
Proof.
  intros Hlen. unfold euclidean, np_sub. rewrite Hlen, Nat.eqb_refl.
  cbn [bind]. unfold np_sum.
  rewrite fold_left_Rplus, length_map, zip_with_length by lia.
  rewrite Rplus_0_l, <- Hlen. do 2 f_equal.
  apply sum_upto_ext. intros k Hk.
  rewrite (nth_map_in _ _ k 0) by (rewrite zip_with_length; lia).
  rewrite (nth_zip_with _ _ _ _ 0 0) by lia. reflexivity.
Qed.

Lemma euclidean2_value (x y : list R) :
  (length x <= length y)%nat ->
  euclidean2 x y
  = Ok (sqrt (sum_upto (fun k => (nth k x 0 - nth k y 0) ^ 2) (length x))).
Proof.
  intros Hlen. unfold euclidean2.
  rewrite euclidean2_loop by lia. reflexivity.
Qed.



Lemma for_in_app {S : Type} (body : nat -> S -> outcome S) (l1 l2 : list nat)
  (s : S) :
  for_in (l1 ++ l2) body s = (s' <- for_in l1 body s ;; for_in l2 body s').
Proof.
  revert s; induction l1 as [|i l1 IH]; intros s; [reflexivity|].
  cbn [app for_in]. destruct (body i s) as [s1|e]; cbn [bind]; auto.
Qed.

(** A loop that keeps an invariant up to index [m] and whose body fails
    there fails the same way. *)
Lemma for_range_fails {S : Type} (Inv : nat -> S -> Prop)
  (body : nat -> S -> outcome S) (n m : nat) (s : S) (e : failure) :
  (m < n)%nat ->
  Inv O s ->
  (forall i s, (i < m)%nat -> Inv i s ->
               exists s', body i s = Ok s' /\ Inv (Datatypes.S i) s') ->
  (forall s, Inv m s -> body m s = Raise e) ->
  for_range n body s = Raise e.
Proof.
  intros Hm Hs Hstep Hfail. unfold for_range.
  replace n with (m + (n - m))%nat by lia.
  rewrite seq_app, for_in_app.
  destruct (for_range_invariant Inv body m s Hs Hstep) as (s' & E & Hs').
  unfold for_range in E. rewrite E. cbn [bind Nat.add].
  destruct (n - m)%nat as [|k] eqn:Hk; [lia|].
  cbn [seq for_in]. rewrite (Hfail s' Hs'). reflexivity.
Qed.

Lemma load_out_of_range {A : Type} (e : failure) (v : list A) (i : nat) :
  (length v <= i)%nat -> load e v i = Raise e.
Proof.
  intros Hi. unfold load.
  destruct (nth_error v i) as [x|] eqn:E; [|reflexivity].
  assert (i < length v)%nat by (apply nth_error_Some; congruence). lia.
Qed.

Lemma np_sub_mismatch (u v : list R) :
  length u <> length v -> length u <> 1%nat -> length v <> 1%nat ->
  np_sub u v = Raise ValueError.
Proof.
  intros Hne Hu Hv. unfold np_sub.
  destruct (Nat.eqb_spec (length u) (length v)) as [E|_]; [contradiction|].
  destruct u as [|a [|a' u]], v as [|b [|b' v]];
    cbn in Hne, Hu, Hv; try reflexivity; congruence.
Qed.

(** X9.  When [y] is shorter than [x], [euclidean2] reads [y] past its
    end, a subscript the compiled code does not check; [euclidean]
    raises [ValueError] on the same arrays unless one of them has one
    element, which NumPy broadcasts. *)
Theorem euclidean2_reads_past_short_y (x y : list R) :
  (length y < length x)%nat ->
  euclidean2 x y = Raise OutOfBounds /\
  (length x <> 1%nat -> length y <> 1%nat -> euclidean x y = Raise ValueError).
Proof.
  intros Hlen. split.
  - unfold euclidean2.
    rewrite (for_range_fails
               (fun k d => True) _ (length x) (length y) 0 OutOfBounds);
      [reflexivity | exact Hlen | exact I | |].
    + intros i d Hi _.
      rewrite (load_in_range _ x i 0), (load_in_range _ y i 0) by lia.
      cbn [bind]. eauto.
    + intros d _.
      rewrite (load_in_range _ x (length y) 0) by lia. cbn [bind].
      rewrite load_out_of_range by lia. reflexivity.
  - intros Hx Hy. unfold euclidean.
    rewrite np_sub_mismatch by lia. reflexivity.
Qed.

Lemma euclidean2_reads_past_short_y_witness :
  euclidean2 [1; 2] [] = Raise OutOfBounds /\
  (length [1; 2] <> 1%nat -> length (@nil R) <> 1%nat ->
   euclidean [1; 2] [] = Raise ValueError).
Proof. apply (euclidean2_reads_past_short_y [1; 2] []). simpl. lia. Defined.

(** X10.  When [y] is longer than [x], [euclidean2] returns the distance
    to the first [len(x)] elements of [y] and ignores the rest, where
    [euclidean] raises [ValueError] (unless [x] has one element). *)
Theorem euclidean2_ignores_long_y (x y : list R) :
  (length x < length y)%nat ->
  euclidean2 x y
  = Ok (sqrt (sum_upto (fun k => (nth k x 0 - nth k y 0) ^ 2) (length x))) /\
  (length x <> 1%nat -> length y <> 1%nat -> euclidean x y = Raise ValueError).
Proof.
  intros Hlen. split.
  - apply euclidean2_value. lia.
  - intros Hx Hy. unfold euclidean.
    rewrite np_sub_mismatch by lia. reflexivity.
Qed.

Lemma euclidean2_ignores_long_y_witness :
  euclidean2 [1; 2] [1; 5; 9]
  = Ok (sqrt (sum_upto (fun k => (nth k [1; 2] 0 - nth k [1; 5; 9] 0) ^ 2)
                (length [1; 2]))) /\
  (length [1; 2] <> 1%nat -> length [1; 5; 9] <> 1%nat ->
   euclidean [1; 2] [1; 5; 9] = Raise ValueError).
Proof. apply (euclidean2_ignores_long_y [1; 2] [1; 5; 9]). simpl. lia. Defined.

(** ** Pairwise distances as a metric *)

Lemma sum_upto_plus (g h : nat -> R) (n : nat) :
  sum_upto (fun k => g k + h k) n = sum_upto g n + sum_upto h n.
Proof.
  induction n as [|n IH]; cbn [sum_upto]; [lra|]. rewrite IH. lra.
Qed.

Lemma sum_upto_nonneg (g : nat -> R) (n : nat) :
  (forall k, (k < n)%nat -> 0 <= g k) -> 0 <= sum_upto g n.
Proof.
  induction n as [|n IH]; intros H; cbn [sum_upto]; [lra|].
  specialize (IH (fun k Hk => H k (Nat.lt_lt_succ_r _ _ Hk))).
  specialize (H n (Nat.lt_succ_diag_r n)). lra.
Qed.

Lemma sum_upto_zero_terms (g : nat -> R) (n : nat) :
  (forall k, (k < n)%nat -> 0 <= g k) -> sum_upto g n = 0 ->
  forall k, (k < n)%nat -> g k = 0.
Proof.
  induction n as [|n IH]; intros Hpos Hsum k Hk; [lia|].
  cbn [sum_upto] in Hsum.
  assert (H1 : 0 <= sum_upto g n) by (apply sum_upto_nonneg; auto).
  assert (H2 : 0 <= g n) by (apply Hpos; lia).
  destruct (Nat.eq_dec k n) as [->|Hne]; [lra|].
  apply IH; [auto | lra | lia].
Qed.

(** The Cauchy-Schwarz inequality for finite sums. *)
Lemma sum_upto_cauchy_schwarz (u v : nat -> R) (n : nat) :
  (sum_upto (fun k => u k * v k) n) ^ 2
  <= sum_upto (fun k => u k ^ 2) n * sum_upto (fun k => v k ^ 2) n.
Proof.
  induction n as [|n IH]; cbn [sum_upto]; [lra|].
  set (s := sum_upto (fun k => u k * v k) n) in *.
  set (U := sum_upto (fun k => u k ^ 2) n) in *.
  set (V := sum_upto (fun k => v k ^ 2) n) in *.
  assert (HU : 0 <= U) by (apply sum_upto_nonneg; intros; apply pow2_ge_0).
  assert (HV : 0 <= V) by (apply sum_upto_nonneg; intros; apply pow2_ge_0).
  set (a := u n). set (b := v n).
  assert (Hab : 0 <= U * b ^ 2 + V * a ^ 2).
  { pose proof (pow2_ge_0 a). pose proof (pow2_ge_0 b). nra. }
  assert (H1 : (2 * s * a * b) ^ 2 <= (U * b ^ 2 + V * a ^ 2) ^ 2).
  { assert (H0 : 0 <= (a * b) ^ 2 * (U * V - s ^ 2)).
    { apply Rmult_le_pos; [apply pow2_ge_0 | lra]. }
    pose proof (pow2_ge_0 (U * b ^ 2 - V * a ^ 2)). nra. }
  assert (H2 : 2 * s * a * b <= U * b ^ 2 + V * a ^ 2).
  { destruct (Rle_dec (2 * s * a * b) (U * b ^ 2 + V * a ^ 2)) as [?|Hn];
      [assumption|]. nra. }
  nra.
Qed.

Lemma distance_nonneg (X : ndarray2) (i j : nat) : 0 <= distance X i j.
Proof. apply sqrt_pos. Qed.

Lemma distance_zero_iff (X : ndarray2) (i j : nat) :
  distance X i j = 0 <->
  forall k, (k < snd (shape X))%nat -> entry X i k = entry X j k.
Proof.
  unfold distance. split.
  - intros H k Hk.
    apply sqrt_eq_0 in H;
      [| apply sum_upto_nonneg; intros; apply pow2_ge_0].
    pose proof (sum_upto_zero_terms _ _ (fun k _ => pow2_ge_0 _) H k Hk) as E.
    cbv beta in E. nra.
  - intros H. rewrite sum_upto_zero; [apply sqrt_0|].
    intros k Hk. rewrite (H k Hk). ring.
Qed.

Lemma distance_triangle (X : ndarray2) (i j l : nat) :
  distance X i l <= distance X i j + distance X j l.
Proof.
  unfold distance.
  set (n := snd (shape X)).
  set (u := fun k => entry X i k - entry X j k).
  set (v := fun k => entry X j k - entry X l k).
  set (A := sum_upto (fun k => (entry X i k - entry X l k) ^ 2) n).
  set (B := sum_upto (fun k => (entry X i k - entry X j k) ^ 2) n).
  set (C := sum_upto (fun k => (entry X j k - entry X l k) ^ 2) n).
  set (s := sum_upto (fun k => u k * v k) n).
  assert (HB : 0 <= B) by (apply sum_upto_nonneg; intros; apply pow2_ge_0).
  assert (HC : 0 <= C) by (apply sum_upto_nonneg; intros; apply pow2_ge_0).
  assert (HA : A = B + 2 * s + C).
  { unfold A, B, C, s. rewrite <- sum_upto_scale, <- !sum_upto_plus.
    apply sum_upto_ext. intros k _. unfold u, v. ring. }
  assert (Hcs : s ^ 2 <= B * C) by apply (sum_upto_cauchy_schwarz u v n).
  pose proof (sqrt_pos B) as HsB. pose proof (sqrt_pos C) as HsC.
  pose proof (sqrt_sqrt B HB) as EB. pose proof (sqrt_sqrt C HC) as EC.
  assert (Hs : s <= sqrt B * sqrt C).
  { destruct (Rle_dec s (sqrt B * sqrt C)) as [?|Hn]; [assumption|].
    assert (0 <= sqrt B * sqrt C) by (apply Rmult_le_pos; assumption).
    assert ((sqrt B * sqrt C) ^ 2 = B * C) by nra. nra. }
  rewrite <- (sqrt_square (sqrt B + sqrt C)) by lra.
  apply sqrt_le_1_alt. nra.
Qed.

Section PairwiseMetric.

Variable junk : R.
Variable X : ndarray2.
Hypothesis X_shaped : well_shaped X.

#[local] Abbreviation M := (fst (shape X)).
#[local] Abbreviation N := (snd (shape X)).

(** What [pairwise_py] returns, entry by entry. *)
Lemma pairwise_py_entries :
  exists D,
    pairwise_py junk X = Ok D /\ shape D = (M, M) /\ well_shaped D /\
    forall i j, (i < M)%nat -> (j < M)%nat ->
                getitem2 D i j = Ok (distance X i j).
Proof.
  rewrite pairwise_py_unfold.
  match goal with |- exists D, for_range _ ?body ?D0 = _ /\ _ =>
    destruct (for_range_invariant
                (fun i D =>
                   (shape D = (M, M) /\ well_shaped D) /\
                   forall i' j, (i' < i)%nat -> (j < M)%nat ->
                                entry D i' j = distance X i' j)
                body M D0) as (D & E & (Hsh & Hws) & Hent)
  end.
  - split; [split; [reflexivity | apply np_empty2_shaped]|].
    intros i' j Hi'. lia.
  - intros i D1 Hi (HD1 & Hdone).
    destruct (pairwise_row X X_shaped i D1 Hi HD1)
      as (D2 & E2 & HD2 & Hrow & Hrest).
    exists D2. split; [exact E2|]. split; [exact HD2|].
    intros i' j Hi' Hj.
    destruct (Nat.eq_dec i' i) as [->|Hne]; [apply Hrow, Hj|].
    rewrite Hrest by exact Hne. apply Hdone; [lia | exact Hj].
  - exists D. split; [exact E|]. split; [exact Hsh|]. split; [exact Hws|].
    intros i j Hi Hj.
    rewrite getitem2_entry by (try exact Hws; rewrite Hsh; assumption).
    rewrite Hent by assumption. reflexivity.
Qed.

(** X11.  Under exact real arithmetic, the entries [pairwise_py]
    returns are never negative, and the entry [(i, j)] is zero exactly
    when rows [i] and [j] of [X] are equal. *)
Theorem pairwise_py_separates_rows :
  exists D,
    pairwise_py junk X = Ok D /\
    forall i j, (i < M)%nat -> (j < M)%nat ->
      exists d,
        getitem2 D i j = Ok d /\ 0 <= d /\
        (d = 0 <-> forall k, (k < N)%nat -> entry X i k = entry X j k).
Proof.
  destruct pairwise_py_entries as (D & E & _ & _ & Hent).
  exists D. split; [exact E|]. intros i j Hi Hj.
  exists (distance X i j). split; [apply Hent; assumption|].
  split; [apply distance_nonneg | apply distance_zero_iff].
Qed.

(** X12.  Under exact real arithmetic, the entries [pairwise_py]
    returns satisfy the triangle inequality:
    [D[i,l] <= D[i,j] + D[j,l]]. *)
Theorem pairwise_py_triangle :
  exists D,
    pairwise_py junk X = Ok D /\
    forall i j l, (i < M)%nat -> (j < M)%nat -> (l < M)%nat ->
      exists dil dij djl,
        getitem2 D i l = Ok dil /\ getitem2 D i j = Ok dij /\
        getitem2 D j l = Ok djl /\ dil <= dij + djl.
Proof.
  destruct pairwise_py_entries as (D & E & _ & _ & Hent).
  exists D. split; [exact E|]. intros i j l Hi Hj Hl.
  exists (distance X i l), (distance X i j), (distance X j l).
  rewrite !Hent by assumption.
  repeat split. apply distance_triangle.
Qed.

(** X13.  Under exact real arithmetic, each entry [pairwise_py] returns
    is what [euclidean] and [euclidean2] return on the two rows. *)
Theorem pairwise_py_is_euclidean_of_rows :
  exists D,
    pairwise_py junk X = Ok D /\
    forall i j, (i < M)%nat -> (j < M)%nat ->
      getitem2 D i j = euclidean (nth i (rows X) []) (nth j (rows X) []) /\
      getitem2 D i j = euclidean2 (nth i (rows X) []) (nth j (rows X) []).
Proof.
  destruct pairwise_py_entries as (D & E & _ & _ & Hent).
  exists D. split; [exact E|]. intros i j Hi Hj.
  assert (Hlen : length (nth i (rows X) []) = length (nth j (rows X) []))
    by (rewrite !well_shaped_row by assumption; reflexivity).
  rewrite euclidean_value, euclidean2_value, Hent by (assumption || lia).
  rewrite well_shaped_row by assumption. auto.
Qed.

End PairwiseMetric.

Lemma triangle_345_shaped : well_shaped triangle_345.
Proof. split; [reflexivity | repeat constructor]. Qed.

Lemma pairwise_py_separates_rows_witness :
  exists D,
    pairwise_py 0 triangle_345 = Ok D /\
    forall i j,
      (i < fst (shape triangle_345))%nat ->
      (j < fst (shape triangle_345))%nat ->
      exists d,
        getitem2 D i j = Ok d /\ 0 <= d /\
        (d = 0 <->
         forall k, (k < snd (shape triangle_345))%nat ->
                   entry triangle_345 i k = entry triangle_345 j k).
Proof.
  apply (pairwise_py_separates_rows 0 triangle_345).
  split; [reflexivity | repeat constructor].
Defined.

Lemma pairwise_py_triangle_witness :
  exists D,
    pairwise_py 0 triangle_345 = Ok D /\
    forall i j l,
      (i < fst (shape triangle_345))%nat ->
      (j < fst (shape triangle_345))%nat ->
      (l < fst (shape triangle_345))%nat ->
      exists dil dij djl,
        getitem2 D i l = Ok dil /\ getitem2 D i j = Ok dij /\
        getitem2 D j l = Ok djl /\ dil <= dij + djl.
Proof.
  apply (pairwise_py_triangle 0 triangle_345).
  split; [reflexivity | repeat constructor].
Defined.

Lemma pairwise_py_is_euclidean_of_rows_witness :
  exists D,
    pairwise_py 0 triangle_345 = Ok D /\
    forall i j,
      (i < fst (shape triangle_345))%nat ->
      (j < fst (shape triangle_345))%nat ->
      getitem2 D i j
      = euclidean (nth i (rows triangle_345) []) (nth j (rows triangle_345) []) /\
      getitem2 D i j
      = euclidean2 (nth i (rows triangle_345) []) (nth j (rows triangle_345) []).
Proof.
  apply (pairwise_py_is_euclidean_of_rows 0 triangle_345).
  split; [reflexivity | repeat constructor].
Defined.

(** On the corners of the 3-4-5 triangle the distances are 3, 4 and 5. *)
Lemma distance_triangle_345 :
  distance triangle_345 0 1 = 3 /\ distance triangle_345 1 2 = 4 /\
  distance triangle_345 0 2 = 5.
Proof.
  unfold distance, triangle_345, entry. cbn.
  repeat split;
    match goal with
    | |- sqrt ?e = ?v =>
        replace e with (v * v) by ring; apply sqrt_square; lra
    end.
Qed.

(** ** Gradient descent: passes, shapes and fixed points *)

Lemma iter_fixed {A : Type} (g : A -> A) (x : A) (k : nat) :
  g x = x -> Nat.iter k g x = x.
Proof.
  intros H. induction k as [|k IH]; [reflexivity|].
  rewrite Nat.iter_succ, IH. exact H.
Qed.

Lemma column_stack_left_ones (X : ndarray2) :
  column_stack_left (np_ones (fst (shape X))) X
  = Ok (mk_ndarray2 (fst (shape X), S (snd (shape X)))
          (zip_with (fun a r => a :: r) (np_ones (fst (shape X))) (rows X))).
Proof.
  unfold column_stack_left, np_ones.
  rewrite repeat_length, Nat.eqb_refl. reflexivity.
Qed.

Lemma gradient_descent_unfold (draws : nat -> R) (X : ndarray2) (y : list R)
  (gamma : R) (n_iter : Z) :
  gradient_descent draws X y gamma n_iter =
  (nX <- column_stack_left (np_ones (fst (shape X))) X ;;
   for_in (range_from_1 n_iter) (fun i w =>
     d <- np_dot nX w ;;
     d <- np_sub d y ;;
     dE <- np_dot (scale2 2 (transpose nX)) d ;;
     np_isub w (np_scale gamma dE))
     (np_random_rand draws (snd (shape X) + 1))).
Proof. unfold gradient_descent. destruct (shape X). reflexivity. Qed.

(** X14.  [gradient_descent] makes [n_iter - 1] passes, one fewer than
    its parameter says: the loop runs over [range(1, n_iter)]. *)
Theorem gradient_descent_makes_one_pass_less (draws : nat -> R)
  (X : ndarray2) (y : list R) (gamma : R) (n_iter : Z) :
  well_shaped X -> length y = fst (shape X) -> (1 <= n_iter)%Z ->
  gradient_descent draws X y gamma n_iter =
  Ok (Nat.iter (Z.to_nat n_iter - 1) (descent_update X y gamma)
        (np_random_rand draws (snd (shape X) + 1))).
Proof.
  intros HX Hy Hn. rewrite gradient_descent_iterates by assumption.
  replace (Z.to_nat (n_iter - 1)) with (Z.to_nat n_iter - 1)%nat by lia.
  reflexivity.
Qed.

Lemma gradient_descent_makes_one_pass_less_witness :
  gradient_descent zero_draws X1 y1 1 2 =
  Ok (Nat.iter (Z.to_nat 2 - 1) (descent_update X1 y1 1)
        (np_random_rand zero_draws (snd (shape X1) + 1))).
Proof.
  apply (gradient_descent_makes_one_pass_less zero_draws X1 y1 1 2).
  - split; [reflexivity | repeat constructor].
  - reflexivity.
  - lia.
Defined.

(** X15.  For [n_iter <= 1] no pass is made: [gradient_descent] returns
    the random start unchanged, whatever [X], [y] and [gamma] are, a [y]
    of the wrong length included. *)
Theorem gradient_descent_without_passes (draws : nat -> R) (X : ndarray2)
  (y : list R) (gamma : R) (n_iter : Z) :
  (n_iter <= 1)%Z ->
  gradient_descent draws X y gamma n_iter
  = Ok (np_random_rand draws (snd (shape X) + 1)).
Proof.
  intros Hn. rewrite gradient_descent_unfold, column_stack_left_ones.
  cbn [bind]. unfold range_from_1.
  replace (Z.to_nat (n_iter - 1)) with O by lia. reflexivity.
Qed.

Lemma gradient_descent_without_passes_witness :
  gradient_descent zero_draws X1 [] 1 1
  = Ok (np_random_rand zero_draws (snd (shape X1) + 1)).
Proof. apply (gradient_descent_without_passes zero_draws X1 [] 1 1). lia. Defined.

(** X16.  With at least one pass ([n_iter >= 2]), a [y] whose length is
    neither the number of samples nor one makes [gradient_descent] raise
    [ValueError]. *)
Theorem gradient_descent_rejects_wrong_y (draws : nat -> R) (X : ndarray2)
  (y : list R) (gamma : R) (n_iter : Z) :
  well_shaped X -> length y <> fst (shape X) -> length y <> 1%nat ->
  (2 <= n_iter)%Z ->
  gradient_descent draws X y gamma n_iter = Raise ValueError.
Proof.
  intros HX Hy Hy1 Hn.
  rewrite gradient_descent_unfold, column_stack_left_ones. cbn [bind].
  unfold range_from_1.
  replace (Z.to_nat (n_iter - 1)) with (S (Z.to_nat (n_iter - 1) - 1)) by lia.
  cbn [seq for_in].
  unfold np_dot at 1. cbn [shape snd rows].
  rewrite np_random_rand_length.
  replace (S (snd (shape X)) =? snd (shape X) + 1)%nat with true
    by (symmetry; apply Nat.eqb_eq; lia).
  cbn [bind].
  set (d := map _ _).
  assert (Hd : length d = fst (shape X)).
  { unfold d. destruct HX as [Hrows _].
    rewrite length_map, zip_with_length; unfold np_ones;
      rewrite repeat_length; lia. }
  destruct (Nat.eq_dec (fst (shape X)) 1) as [E1|E1].
  - (* one sample: NumPy broadcasts it against [y] *)
    destruct d as [|a [|a' d']]; cbn in Hd; try lia.
    unfold np_sub. cbn [length].
    destruct (Nat.eqb_spec 1 (length y)) as [E|_]; [lia|].
    assert (Hsub : match y with
                   | [b] => Ok (map (fun a0 => a0 - b) [a])
                   | _ => Ok (map (fun b => a - b) y)
                   end = Ok (map (fun b => a - b) y)).
    { destruct y as [|b [|b' y']]; cbn in Hy1; try reflexivity; lia. }
    rewrite Hsub. cbn [bind].
    unfold np_dot, transpose, scale2. cbn [shape snd fst rows].
    rewrite length_map.
    destruct (Nat.eqb_spec (fst (shape X)) (length y)) as [E|_]; [lia|].
    reflexivity.
  - rewrite np_sub_mismatch by lia. reflexivity.
Qed.

Lemma gradient_descent_rejects_wrong_y_witness :
  gradient_descent zero_draws X2 [1; 1; 1] 1 2 = Raise ValueError.
Proof.
  apply (gradient_descent_rejects_wrong_y zero_draws X2 [1; 1; 1] 1 2).
  - split; [reflexivity | repeat constructor].
  - simpl. lia.
  - simpl. lia.
  - lia.
Defined.

Lemma descent_update_fixed (X : ndarray2) (y : list R) (gamma : R)
  (w : list R) :
  length w = (snd (shape X) + 1)%nat ->
  gamma = 0 \/
  (forall i, (i < fst (shape X))%nat -> prediction X w i = nth i y 0) ->
  descent_update X y gamma w = w.
Proof.
  intros Hw Hfix. apply (nth_ext _ _ 0 0).
  { rewrite descent_update_length. lia. }
  rewrite descent_update_length. intros j Hj. unfold descent_update.
  rewrite (nth_map_in _ _ j O) by (rewrite length_seq; lia).
  rewrite seq_nth by lia. cbn [Nat.add].
  destruct Hfix as [->|Hfit]; [ring|].
  unfold residual_gradient. rewrite sum_upto_zero; [ring|].
  intros i Hi. rewrite (Hfit i Hi). ring.
Qed.

(** X17.  Under exact real arithmetic, a start that needs no correction
    is returned as it is: when the learning rate is zero, or when the
    random start already predicts every target exactly,
    [gradient_descent] returns the start for every [n_iter]. *)
Theorem gradient_descent_keeps_exact_fit (draws : nat -> R) (X : ndarray2)
  (y : list R) (gamma : R) (n_iter : Z) :
  well_shaped X -> length y = fst (shape X) ->
  gamma = 0 \/
  (forall i, (i < fst (shape X))%nat ->
             prediction X (np_random_rand draws (snd (shape X) + 1)) i
             = nth i y 0) ->
  gradient_descent draws X y gamma n_iter
  = Ok (np_random_rand draws (snd (shape X) + 1)).
Proof.
  intros HX Hy Hfix.
  rewrite gradient_descent_iterates by assumption. f_equal.
  apply iter_fixed, descent_update_fixed;
    [apply np_random_rand_length | exact Hfix].
Qed.

Lemma gradient_descent_keeps_exact_fit_witness :
  gradient_descent half_draws X_two [3 / 2] 1 1000
  = Ok (np_random_rand half_draws (snd (shape X_two) + 1)).
Proof.
  apply (gradient_descent_keeps_exact_fit half_draws X_two [3 / 2] 1 1000).
  - split; [reflexivity | repeat constructor].
  - reflexivity.
  - right. intros i Hi.
    change (fst (shape X_two)) with 1%nat in Hi.
    assert (i = O) by lia. subst i.
    unfold prediction, bias_augmented, entry, half_draws. simpl. lra.
Defined.

(** ** The subscripts of [gradient_descent2] *)

Lemma for_range_total {S : Type} (body : nat -> S -> outcome S) (n : nat)
  (s : S) :
  (forall i s, (i < n)%nat -> exists s', body i s = Ok s') ->
  exists s', for_range n body s = Ok s'.
Proof.
  intros H.
  destruct (for_range_invariant (fun _ _ => True) body n s I) as (s' & E & _).
  - intros i t Hi _. destruct (H i t Hi) as (t' & Et). eauto.
  - eauto.
Qed.

Lemma load_total {A : Type} (e : failure) (v : list A) (i : nat) :
  (i < length v)%nat -> exists x, load e v i = Ok x.
Proof.
  intros Hi. unfold load. destruct (nth_error v i) as [x|] eqn:E; [eauto|].
  apply nth_error_None in E. lia.
Qed.

Lemma row_length (A : list (list R)) (m i : nat) :
  Forall (fun r => length r = m) A -> (i < length A)%nat ->
  length (nth i A []) = m.
Proof.
  intros HA Hi. rewrite Forall_forall in HA. apply HA, nth_In, Hi.
Qed.

Lemma load2_total (e : failure) (A : list (list R)) (m i j : nat) :
  Forall (fun r => length r = m) A -> (i < length A)%nat -> (j < m)%nat ->
  exists x, load2 e A i j = Ok x.
Proof.
  intros HA Hi Hj. unfold load2.
  rewrite (load_in_range _ _ _ []) by exact Hi. cbn [bind].
  apply load_total. rewrite (row_length A m) by assumption. exact Hj.
Qed.

Lemma load2_no_row (e : failure) (A : list (list R)) (i j : nat) :
  (length A <= i)%nat -> load2 e A i j = Raise e.
Proof.
  intros Hi. unfold load2. rewrite load_out_of_range by exact Hi. reflexivity.
Qed.

Lemma load2_no_column (e : failure) (A : list (list R)) (m i j : nat) :
  Forall (fun r => length r = m) A -> (i < length A)%nat -> (m <= j)%nat ->
  load2 e A i j = Raise e.
Proof.
  intros HA Hi Hj. unfold load2.
  rewrite (load_in_range _ _ _ []) by exact Hi. cbn [bind].
  apply load_out_of_range. rewrite (row_length A m) by assumption. exact Hj.
Qed.

Lemma store2_total (e : failure) (A : list (list R)) (m i j : nat) (x : R) :
  Forall (fun r => length r = m) A -> (i < length A)%nat -> (j < m)%nat ->
  exists A', store2 e A i j x = Ok A' /\ length A' = length A /\
             Forall (fun r => length r = m) A'.
Proof.
  intros HA Hi Hj. unfold store2.
  pose proof (row_length A m i HA Hi) as Hrow.
  rewrite (load_in_range _ _ _ []) by exact Hi. cbn [bind].
  rewrite store_in_range by lia. cbn [bind].
  rewrite store_in_range by exact Hi.
  eexists. split; [reflexivity|]. split; [apply set_nth_length|].
  apply Forall_set_nth; [exact HA|]. rewrite set_nth_length. exact Hrow.
Qed.

Section Gd2Subscripts.

Variables n P : nat.

#[local] Abbreviation shaped := (gd2_shaped n P).

Lemma load_nX_total (s : gd2_state) (a b : nat) :
  shaped s -> (a < n)%nat -> (b < P + 1)%nat -> exists x, load_nX s a b = Ok x.
Proof.
  intros (Hn & Hrows & _) Ha Hb. unfold load_nX.
  apply (load2_total _ _ (P + 1)); [assumption | lia | assumption].
Qed.

Lemma load_nXT_total (s : gd2_state) (a b : nat) :
  shaped s -> (a < P + 1)%nat -> (b < n)%nat ->
  exists x, load_nXT s a b = Ok x.
Proof.
  intros (Hn & Hrows & _) Ha Hb. unfold load_nXT.
  apply (load2_total _ _ (P + 1)); [assumption | lia | assumption].
Qed.

Lemma store_nXT_total (s : gd2_state) (a b : nat) (x : R) :
  shaped s -> (a < P + 1)%nat -> (b < n)%nat ->
  exists s', store_nXT s a b x = Ok s' /\ shaped s'.
Proof.
  intros (Hn & Hrows & Hw & Hd & HdE) Ha Hb. unfold store_nXT.
  destruct (store2_total OutOfBounds (nX s) (P + 1) b a x)
    as (A' & E & Hlen & HA'); [assumption | lia | assumption |].
  rewrite E. cbn [bind]. eexists. split; [reflexivity|].
  repeat split; cbn [nX w tmp_d tmp_dE]; try assumption. lia.
Qed.

Lemma store_w_total (s : gd2_state) (j : nat) (x : R) :
  shaped s -> (j < P + 1)%nat -> exists s', store_w s j x = Ok s' /\ shaped s'.
Proof.
  intros (Hn & Hrows & Hw & Hd & HdE) Hj. unfold store_w.
  rewrite store_in_range by lia. cbn [bind]. eexists. split; [reflexivity|].
  repeat split; cbn [nX w tmp_d tmp_dE]; try assumption.
  rewrite set_nth_length. exact Hw.
Qed.

Lemma store_tmp_d_total (s : gd2_state) (j : nat) (x : R) :
  shaped s -> (j < n)%nat -> exists s', store_tmp_d s j x = Ok s' /\ shaped s'.
Proof.
  intros (Hn & Hrows & Hw & Hd & HdE) Hj. unfold store_tmp_d.
  rewrite store_in_range by lia. cbn [bind]. eexists. split; [reflexivity|].
  repeat split; cbn [nX w tmp_d tmp_dE]; try assumption.
  rewrite set_nth_length. exact Hd.
Qed.

Lemma store_tmp_dE_total (s : gd2_state) (j : nat) (x : R) :
  shaped s -> (j < P + 1)%nat ->
  exists s', store_tmp_dE s j x = Ok s' /\ shaped s'.
Proof.
  intros (Hn & Hrows & Hw & Hd & HdE) Hj. unfold store_tmp_dE.
  rewrite store_in_range by lia. cbn [bind]. eexists. split; [reflexivity|].
  repeat split; cbn [nX w tmp_d tmp_dE]; try assumption.
  rewrite set_nth_length. exact HdE.
Qed.

(** The row of [nXT] doubled by one pass of the inner loop, as long as
    the columns [k < m] exist. *)
Lemma gd2_double_row (j m : nat) (s : gd2_state) :
  shaped s -> (j < n)%nat -> (m <= P + 1)%nat ->
  exists s',
    for_range m (fun k s =>
      x <- load_nXT s k j ;; store_nXT s k j (x * 2)) s = Ok s' /\
    shaped s'.
Proof.
  intros Hs Hj Hm.
  apply (for_range_invariant (fun _ s => shaped s)); [exact Hs|].
  intros k t Hk Ht.
  destruct (load_nXT_total t k j Ht) as (x & Ex); [lia | assumption |].
  rewrite Ex. cbn [bind]. apply store_nXT_total; [assumption | lia | assumption].
Qed.

(** The doubling loop stays inside [nXT] when [P <= n <= P+1]. *)
Lemma gd2_double_total (s : gd2_state) :
  shaped s -> (P <= n)%nat -> (n <= P + 1)%nat ->
  exists s', gd2_double n P s = Ok s' /\ shaped s'.
Proof.
  intros Hs HPn HnP. unfold gd2_double.
  apply (for_range_invariant (fun _ s => shaped s)); [exact Hs|].
  intros j t Hj Ht. apply gd2_double_row; [assumption | lia | assumption].
Qed.

(** The doubling loop leaves [nXT] when there are more than [P+1]
    samples: in its first row it reaches column [P+1]. *)
Lemma gd2_double_fails_many_samples (s : gd2_state) :
  shaped s -> (1 <= P)%nat -> (P + 1 < n)%nat ->
  gd2_double n P s = Raise OutOfBounds.
Proof.
  intros Hs HP Hn. unfold gd2_double.
  apply (for_range_fails (fun _ s => shaped s) _ P O);
    [lia | exact Hs | intros i t Hi; lia |].
  intros t Ht.
  apply (for_range_fails (fun _ s => shaped s) _ n (P + 1));
    [exact Hn | exact Ht | |].
  - intros k u Hk Hu.
    destruct (load_nXT_total u k O Hu) as (x & Ex); [lia | lia |].
    rewrite Ex. cbn [bind]. apply store_nXT_total; [assumption | lia | lia].
  - intros u (Hlen & Hrows & _). unfold load_nXT.
    rewrite (load2_no_column _ _ (P + 1)); [reflexivity | assumption | lia | lia].
Qed.

(** The doubling loop leaves [nXT] when there are more than [n]
    features: it reaches row [n] of [nX]. *)
Lemma gd2_double_fails_many_features (s : gd2_state) :
  shaped s -> (1 <= n)%nat -> (n < P)%nat ->
  gd2_double n P s = Raise OutOfBounds.
Proof.
  intros Hs Hn HP. unfold gd2_double.
  apply (for_range_fails (fun _ s => shaped s) _ P n);
    [exact HP | exact Hs | |].
  - intros j t Hj Ht. apply gd2_double_row; [assumption | lia | lia].
  - intros t Ht.
    apply (for_range_fails (fun _ s => shaped s) _ n O);
      [lia | exact Ht | intros i u Hi; lia |].
    intros u (Hlen & _). unfold load_nXT.
    rewrite load2_no_row by lia. reflexivity.
Qed.

(** One pass of the iteration stays inside every array when the
    bias-augmented matrix is square and [y] has at least [n] elements. *)
Lemma gd2_iteration_total (y : list R) (gamma : R) (s : gd2_state) :
  shaped s -> n = (P + 1)%nat -> (n <= length y)%nat ->
  exists s', gd2_iteration n P y gamma s = Ok s' /\ shaped s'.
Proof.
  intros Hs Hsq Hy. unfold gd2_iteration.
  match goal with |- exists s', bind (for_range _ ?body _) _ = _ /\ _ =>
    destruct (for_range_invariant (fun _ s => shaped s) body n s Hs)
      as (s1 & E1 & Hs1)
  end.
  { intros j t Hj Ht.
    match goal with |- exists s', bind (for_range _ ?inner _) _ = _ /\ _ =>
      destruct (for_range_total inner (P + 1) 0) as (suma & Es)
    end.
    { intros k a Hk.
      destruct (load_nX_total t k j Ht) as (x & Ex); [lia | lia |].
      destruct (load_total OutOfBounds (w t) k) as (wk & Ew);
        [destruct Ht as (_ & _ & Hw & _); lia|].
      rewrite Ex, Ew. cbn [bind]. eauto. }
    rewrite Es. cbn [bind].
    destruct (load_total OutOfBounds y j) as (yj & Ey); [lia|].
    rewrite Ey. cbn [bind]. apply store_tmp_d_total; assumption. }
  rewrite E1. cbn [bind].
  match goal with |- exists s', bind (for_range _ ?body _) _ = _ /\ _ =>
    destruct (for_range_invariant (fun _ s => shaped s) body (P + 1) s1 Hs1)
      as (s2 & E2 & Hs2)
  end.
  { intros j t Hj Ht.
    match goal with |- exists s', bind (for_range _ ?inner _) _ = _ /\ _ =>
      destruct (for_range_total inner n 0) as (suma & Es)
    end.
    { intros k a Hk.
      destruct (load_nXT_total t k j Ht) as (x & Ex); [lia | lia |].
      destruct (load_total OutOfBounds (tmp_d t) k) as (d & Ed);
        [destruct Ht as (_ & _ & _ & Hd & _); lia|].
      rewrite Ex, Ed. cbn [bind]. eauto. }
    rewrite Es. cbn [bind]. apply store_tmp_dE_total; assumption. }
  rewrite E2. cbn [bind].
  apply (for_range_invariant (fun _ s => shaped s)); [exact Hs2|].
  intros j t Hj Ht.
  destruct (load_total OutOfBounds (w t) j) as (wj & Ew);
    [destruct Ht as (_ & _ & Hw & _); lia|].
  destruct (load_total OutOfBounds (tmp_dE t) j) as (e & Ee);
    [destruct Ht as (_ & _ & _ & _ & HdE); lia|].
  rewrite Ew, Ee. cbn [bind]. apply store_w_total; assumption.
Qed.

(** With as many features as samples the first pass leaves [nX]: the
    product over [k < P+1] reaches row [n]. *)
Lemma gd2_iteration_fails_square_X (y : list R) (gamma : R) (s : gd2_state) :
  shaped s -> (1 <= n)%nat -> P = n ->
  gd2_iteration n P y gamma s = Raise OutOfBounds.
Proof.
  intros Hs Hn HP. unfold gd2_iteration.
  rewrite (for_range_fails (fun _ s => shaped s) _ n O s OutOfBounds);
    [reflexivity | lia | exact Hs | intros i t Hi; lia |].
  intros t Ht.
  rewrite (for_range_fails (fun _ _ => True) _ (P + 1) n 0 OutOfBounds);
    [reflexivity | lia | exact I | |].
  - intros k a Hk _.
    destruct (load_nX_total t k O Ht) as (x & Ex); [lia | lia |].
    destruct (load_total OutOfBounds (w t) k) as (wk & Ew);
      [destruct Ht as (_ & _ & Hw & _); lia|].
    rewrite Ex, Ew. cbn [bind]. eauto.
  - intros a _. unfold load_nX.
    rewrite load2_no_row by (destruct Ht as (Hlen & _); lia). reflexivity.
Qed.

End Gd2Subscripts.


Lemma Forall_zip_with_snoc (m : nat) (A : list (list R)) (c : list R) :
  Forall (fun r => length r = m) A ->
  Forall (fun r => length r = (m + 1)%nat)
    (zip_with (fun r a => r ++ [a]) A c).
Proof.
  intros HA. revert c; induction HA as [|r A Hr HA IH]; intros [|a c];
    cbn [zip_with]; constructor; auto.
  rewrite length_app, Hr. reflexivity.
Qed.

Section Gd2Calls.

Variable junk : R.
Variable draws : nat -> R.
Variable X : ndarray2.
Variable y : list R.
Variable gamma : R.
Hypothesis X_shaped : well_shaped X.

#[local] Abbreviation n := (fst (shape X)).
#[local] Abbreviation P := (snd (shape X)).

(** The arrays [gradient_descent2] allocates before its loops. *)
#[local] Abbreviation start :=
  (mk_gd2 (zip_with (fun r a => r ++ [a]) (rows X) (np_ones n))
     (np_random_rand draws (P + 1)) (np_empty junk n) (np_empty junk (P + 1))).

Lemma gd2_start_shaped : gd2_shaped n P start.
Proof.
  destruct X_shaped as [Hlen Hrows].
  unfold gd2_shaped. cbn [nX w tmp_d tmp_dE].
  split; [|split; [|split; [|split]]].
  - rewrite zip_with_length; unfold np_ones; rewrite ?repeat_length; lia.
  - apply Forall_zip_with_snoc, Hrows.
  - apply np_random_rand_length.
  - apply repeat_length.
  - apply repeat_length.
Qed.

Lemma gradient_descent2_unfold (n_iter : Z) :
  (INT_MIN <= n_iter <= INT_MAX)%Z ->
  gradient_descent2 junk draws X y gamma n_iter =
  (s <- gd2_double n P start ;;
   s <- for_range (range_len n_iter)
          (fun i s => gd2_iteration n P y gamma s) s ;;
   Ok (w s)).
Proof.
  intros Hn. unfold gradient_descent2.
  rewrite as_c_int_in_range by exact Hn. cbn [bind].
  unfold column_stack_right, np_ones.
  rewrite repeat_length, Nat.eqb_refl. reflexivity.
Qed.

(** X18.  When the bias-augmented matrix is square ([n = P + 1]) and [y]
    has at least [n] elements, every subscript of [gradient_descent2] is
    inside its array: the call returns [P + 1] weights. *)
Theorem gradient_descent2_in_bounds_when_square (n_iter : Z) :
  n = (P + 1)%nat -> (n <= length y)%nat ->
  (INT_MIN <= n_iter <= INT_MAX)%Z ->
  exists w',
    gradient_descent2 junk draws X y gamma n_iter = Ok w' /\
    length w' = (P + 1)%nat.
Proof.
  intros Hsq Hy Hn. rewrite gradient_descent2_unfold by exact Hn.
  destruct (gd2_double_total n P start gd2_start_shaped) as (s1 & E1 & Hs1);
    [lia | lia |].
  rewrite E1. cbn [bind].
  destruct (for_range_invariant (fun _ s => gd2_shaped n P s)
              (fun i s => gd2_iteration n P y gamma s) (range_len n_iter) s1 Hs1)
    as (s2 & E2 & Hs2).
  { intros i t _ Ht. apply gd2_iteration_total; assumption. }
  rewrite E2. cbn [bind]. exists (w s2). split; [reflexivity|].
  destruct Hs2 as (_ & _ & Hw & _). exact Hw.
Qed.

(** X19.  With at least one sample, one feature and one iteration, and
    a bias-augmented matrix that is not square ([n <> P + 1]),
    [gradient_descent2] subscripts an array outside its shape, whatever
    [y] is. *)
Theorem gradient_descent2_out_of_bounds_unless_square (n_iter : Z) :
  (1 <= n)%nat -> (1 <= P)%nat -> n <> (P + 1)%nat ->
  (1 <= n_iter <= INT_MAX)%Z ->
  gradient_descent2 junk draws X y gamma n_iter = Raise OutOfBounds.
Proof.
  intros Hn1 HP1 Hne Hn.
  rewrite gradient_descent2_unfold by (unfold INT_MIN; lia).
  pose proof gd2_start_shaped as Hs.
  destruct (Nat.lt_trichotomy n P) as [Hlt|[Heq|Hgt]].
  - rewrite gd2_double_fails_many_features by assumption. reflexivity.
  - destruct (gd2_double_total n P start Hs) as (s1 & E1 & Hs1); [lia | lia |].
    rewrite E1. cbn [bind].
    rewrite (for_range_fails (fun _ s => gd2_shaped n P s) _
               (range_len n_iter) O s1 OutOfBounds);
      [reflexivity | unfold range_len; lia | exact Hs1
       | intros i t Hi; lia |].
    intros t Ht. apply gd2_iteration_fails_square_X; [assumption | lia | lia].
  - rewrite gd2_double_fails_many_samples by (assumption || lia). reflexivity.
Qed.

End Gd2Calls.

Lemma gradient_descent2_in_bounds_when_square_witness :
  exists w',
    gradient_descent2 0 zero_draws X2 y2 1 1000 = Ok w' /\
    length w' = (snd (shape X2) + 1)%nat.
Proof.
  apply (gradient_descent2_in_bounds_when_square 0 zero_draws X2 y2 1).
  - split; [reflexivity | repeat constructor].
  - reflexivity.
  - simpl. lia.
  - unfold INT_MIN, INT_MAX. lia.
Defined.

Lemma gradient_descent2_out_of_bounds_unless_square_witness :
  gradient_descent2 0 zero_draws X1 y1 1 1000 = Raise OutOfBounds.
Proof.
  apply (gradient_descent2_out_of_bounds_unless_square 0 zero_draws X1 y1 1).
  - split; [reflexivity | repeat constructor].
  - simpl. lia.
  - simpl. lia.
  - simpl. lia.
  - unfold INT_MAX. lia.
Defined.

(** ** [apply_trapz] row by row *)

Lemma for_in_fails_somewhere {S : Type} (Inv : S -> Prop)
  (body : nat -> S -> outcome S) (e : failure) (i : nat) (l : list nat) :
  In i l ->
  (forall j s, In j l -> Inv s ->
     (exists s', body j s = Ok s' /\ Inv s') \/ body j s = Raise e) ->
  (forall s, Inv s -> body i s = Raise e) ->
  forall s, Inv s -> for_in l body s = Raise e.
Proof.
  intros Hi Hbody Hfail. induction l as [|j l IH]; intros s Hs; [contradiction|].
  cbn [for_in].
  destruct (Hbody j s (or_introl eq_refl) Hs) as [(s' & E & Hs')|E];
    rewrite E; cbn [bind]; [|reflexivity].
  destruct Hi as [->|Hi]; [rewrite (Hfail s Hs) in E; discriminate|].
  apply IH; [exact Hi | | exact Hs'].
  intros k t Hk. apply Hbody. right. exact Hk.
Qed.

Lemma trapz4_in_range (a b : R) (N : Z) :
  (INT_MIN <= N <= INT_MAX)%Z -> exists v, Trapz.trapz4 a b N = Ok v.
Proof.
  intros HN. unfold Trapz.trapz4. rewrite as_c_int_in_range by exact HN.
  cbn [bind]. destruct (N =? 0)%Z; eauto.
Qed.

Lemma trapz4_out_of_range (a b : R) (N : Z) :
  ~ (INT_MIN <= N <= INT_MAX)%Z -> Trapz.trapz4 a b N = Raise OverflowError.
Proof.
  intros HN. unfold Trapz.trapz4, as_c_int.
  destruct (Z.leb_spec INT_MIN N); destruct (Z.leb_spec N INT_MAX);
    cbn [andb bind]; try reflexivity. lia.
Qed.

Lemma trapz4_overflow_or_value (a b : R) (N : Z) :
  (exists v, Trapz.trapz4 a b N = Ok v) \/
  Trapz.trapz4 a b N = Raise OverflowError.
Proof.
  destruct (Z_le_dec INT_MIN N); [destruct (Z_le_dec N INT_MAX)|];
    [left; apply trapz4_in_range; lia | right; apply trapz4_out_of_range; lia ..].
Qed.

Section ApplyTrapz.

Variable junk : cdouble.
Variables col_a col_b : column R.
Variable col_n : column Z.
Hypothesis dtypes_ok : dtypes_accepted col_a col_b col_n = true.
Hypothesis lengths_ok : lengths_accepted col_a col_b col_n = true.

#[local] Abbreviation row_result i :=
  (Trapz.trapz4 (nth i (items col_a) 0) (nth i (items col_b) 0)
     (nth i (items col_n) 0%Z)).

Lemma accepted_lengths :
  len col_a = len col_n /\ len col_b = len col_n.
Proof.
  unfold lengths_accepted in lengths_ok.
  apply andb_true_iff in lengths_ok as [E1 E2].
  apply Nat.eqb_eq in E1, E2. lia.
Qed.

Lemma apply_trapz_unfold :
  apply_trapz junk col_a col_b col_n =
  for_range (len col_a) (fun i res =>
    a <- getitem (items col_a) i ;;
    b <- getitem (items col_b) i ;;
    N <- getitem (items col_n) i ;;
    v <- Trapz.trapz4 a b N ;;
    setitem res i v) (repeat junk (len col_n)).
Proof.
  unfold apply_trapz. rewrite dtypes_ok, lengths_ok. reflexivity.
Qed.

(** One pass of the loop on a result array of the right length. *)
Lemma apply_trapz_pass (i : nat) (res : list cdouble) :
  (i < len col_n)%nat -> length res = len col_n ->
  (a <- getitem (items col_a) i ;;
   b <- getitem (items col_b) i ;;
   N <- getitem (items col_n) i ;;
   v <- Trapz.trapz4 a b N ;;
   setitem res i v)
  = (v <- row_result i ;; Ok (set_nth res i v)).
Proof.
  intros Hi Hres. destruct accepted_lengths as [Ha Hb].
  unfold getitem, setitem, len in *.
  rewrite (load_in_range _ (items col_a) i 0) by lia. cbn [bind].
  rewrite (load_in_range _ (items col_b) i 0) by lia. cbn [bind].
  rewrite (load_in_range _ (items col_n) i 0%Z) by lia. cbn [bind].
  destruct (row_result i) as [v|e]; cbn [bind]; [|reflexivity].
  apply store_in_range. lia.
Qed.

(** X20.  On columns that pass the assertions and whose panel counts
    fit a C [int], [apply_trapz] returns an array as long as the columns
    whose element [i] is what [trapz4] returns on row [i]. *)
Theorem apply_trapz_rowwise :
  (forall i, (i < len col_n)%nat ->
             (INT_MIN <= nth i (items col_n) 0 <= INT_MAX)%Z) ->
  exists res,
    apply_trapz junk col_a col_b col_n = Ok res /\
    length res = len col_n /\
    forall i, (i < len col_n)%nat -> row_result i = Ok (nth i res junk).
Proof.
  intros HN. rewrite apply_trapz_unfold.
  destruct accepted_lengths as [Ha _]. rewrite Ha.
  match goal with |- exists res, for_range _ ?body ?r0 = _ /\ _ =>
    destruct (for_range_invariant
                (fun i res =>
                   length res = len col_n /\
                   forall i', (i' < i)%nat -> row_result i' = Ok (nth i' res junk))
                body (len col_n) r0) as (res & E & Hlen & Hres)
  end.
  - split; [apply repeat_length | intros i' Hi'; lia].
  - intros i res Hi (Hlen & Hres).
    rewrite apply_trapz_pass by assumption.
    destruct (trapz4_in_range (nth i (items col_a) 0) (nth i (items col_b) 0)
                (nth i (items col_n) 0%Z) (HN i Hi)) as (v & Ev).
    rewrite Ev. cbn [bind]. eexists. split; [reflexivity|].
    split; [rewrite set_nth_length; exact Hlen|].
    intros i' Hi'. rewrite nth_set_nth by lia.
    destruct (Nat.eqb_spec i' i) as [->|Hne]; [exact Ev|].
    apply Hres. lia.
  - exists res. auto.
Qed.

(** X21.  On columns that pass the assertions, one panel count outside
    the range of a C [int] makes the whole call raise [OverflowError]. *)
Theorem apply_trapz_overflows (i : nat) :
  (i < len col_n)%nat ->
  ~ (INT_MIN <= nth i (items col_n) 0 <= INT_MAX)%Z ->
  apply_trapz junk col_a col_b col_n = Raise OverflowError.
Proof.
  intros Hi HN. rewrite apply_trapz_unfold.
  destruct accepted_lengths as [Ha _]. rewrite Ha.
  apply (for_in_fails_somewhere (fun res => length res = len col_n) _ _ i).
  - apply in_seq. lia.
  - intros j res Hj Hres. apply in_seq in Hj.
    rewrite apply_trapz_pass by (assumption || lia).
    destruct (trapz4_overflow_or_value (nth j (items col_a) 0)
                (nth j (items col_b) 0) (nth j (items col_n) 0%Z))
      as [(v & Ev)|Ev]; rewrite Ev; cbn [bind]; [left | right; reflexivity].
    eexists. split; [reflexivity|]. rewrite set_nth_length. exact Hres.
  - intros res Hres. rewrite apply_trapz_pass by assumption.
    rewrite trapz4_out_of_range by exact HN. reflexivity.
  - apply repeat_length.
Qed.

End ApplyTrapz.

Lemma apply_trapz_rowwise_witness :
  exists res,
    apply_trapz nonfinite (mk_column float64 [0; 1]) (mk_column float64 [1; 3])
      (mk_column int64 [2%Z; 0%Z]) = Ok res /\
    length res = len (mk_column int64 [2%Z; 0%Z]) /\
    forall i, (i < len (mk_column int64 [2%Z; 0%Z]))%nat ->
      Trapz.trapz4 (nth i (items (mk_column float64 [0; 1])) 0)
        (nth i (items (mk_column float64 [1; 3])) 0)
        (nth i (items (mk_column int64 [2%Z; 0%Z])) 0%Z)
      = Ok (nth i res nonfinite).
Proof.
  apply (apply_trapz_rowwise nonfinite (mk_column float64 [0; 1])
           (mk_column float64 [1; 3]) (mk_column int64 [2%Z; 0%Z])).
  - reflexivity.
  - reflexivity.
  - intros i Hi. cbn in Hi. unfold INT_MIN, INT_MAX.
    destruct i as [|[|i]]; cbn; lia.
Defined.

Lemma apply_trapz_overflows_witness :
  apply_trapz nonfinite (mk_column float64 [0; 1]) (mk_column float64 [1; 3])
    (mk_column int64 [2%Z; 2147483648%Z]) = Raise OverflowError.
Proof.
  apply (apply_trapz_overflows nonfinite (mk_column float64 [0; 1])
           (mk_column float64 [1; 3]) (mk_column int64 [2%Z; 2147483648%Z])
           eq_refl eq_refl 1%nat).
  - cbn. lia.
  - cbn. unfold INT_MIN, INT_MAX. lia.
Defined.

(** ** The loop and the comprehension *)

Lemma fold_left_append_map {A B : Type} (g : A -> B) (l : list A)
  (acc : list B) :
  fold_left (fun calcs x => calcs ++ [g x]) l acc = acc ++ map g l.
Proof.
  revert acc; induction l as [|x l IH]; intros acc; cbn [fold_left map].
  - symmetry. apply app_nil_r.
  - rewrite IH, <- app_assoc. reflexivity.
Qed.

(** X22.  The loop that appends and the list comprehension build the
    same list, for every bound: [n] elements, the one at [x] being
    [calculate_y(x)]. *)
Theorem comprehension_builds_the_loop_list (n : nat) :
  calcs_by_append n = calcs_by_comprehension n /\
  length (calcs_by_comprehension n) = n /\
  forall x, (x < n)%nat ->
    nth_error (calcs_by_comprehension n) x = Some (calculate_y (Z.of_nat x)).
Proof.
  unfold calcs_by_append, calcs_by_comprehension.
  split;
    [exact (fold_left_append_map (fun x => calculate_y (Z.of_nat x))
              (seq 0 n) [])|].
  split; [rewrite length_map; apply length_seq|].
  intros x Hx.
  rewrite nth_error_map, nth_error_seq.
  destruct (Nat.ltb_spec x n); [reflexivity | lia].
Qed.

(** ** Broadcasting and short arrays in gradient descent *)

Lemma zip_with_minus_repeat (d : list R) (b : R) :
  zip_with Rminus d (repeat b (length d)) = map (fun a => a - b) d.
Proof.
  induction d as [|a d IH]; [reflexivity|].
  cbn [length repeat zip_with map]. rewrite IH. reflexivity.
Qed.

Lemma np_sub_broadcast (d : list R) (b : R) :
  np_sub d [b] = np_sub d (repeat b (length d)).
Proof.
  unfold np_sub. rewrite repeat_length, Nat.eqb_refl, zip_with_minus_repeat.
  cbn [length].
  destruct (Nat.eqb_spec (length d) 1) as [E|_].
  - destruct d as [|a [|a' d]]; cbn in E; try lia. reflexivity.
  - destruct d as [|a [|a' d]]; reflexivity.
Qed.

Lemma for_in_ext {S : Type} (body1 body2 : nat -> S -> outcome S)
  (l : list nat) :
  (forall i s, body1 i s = body2 i s) ->
  forall s, for_in l body1 s = for_in l body2 s.
Proof.
  intros H. induction l as [|i l IH]; intros s; [reflexivity|].
  cbn [for_in]. rewrite H. destruct (body2 i s); cbn [bind]; auto.
Qed.

(** X23.  A [y] of one element is not rejected: NumPy broadcasts it, and
    [gradient_descent] returns what it returns when every sample has that
    target. *)
Theorem gradient_descent_broadcasts_scalar_y (draws : nat -> R)
  (X : ndarray2) (b gamma : R) (n_iter : Z) :
  well_shaped X ->
  gradient_descent draws X [b] gamma n_iter
  = gradient_descent draws X (repeat b (fst (shape X))) gamma n_iter.
Proof.
  intros [Hrows _].
  rewrite !gradient_descent_unfold, column_stack_left_ones. cbn [bind].
  apply for_in_ext. intros i w0.
  unfold np_dot at 1 3. cbn [shape snd rows].
  destruct (S (snd (shape X)) =? length w0)%nat; [|reflexivity].
  cbn [bind]. rewrite np_sub_broadcast.
  rewrite length_map, zip_with_length;
    unfold np_ones; rewrite ?repeat_length; [reflexivity | lia].
Qed.

Lemma gradient_descent_broadcasts_scalar_y_witness :
  gradient_descent zero_draws X2 [1] 1 3
  = gradient_descent zero_draws X2 (repeat 1 (fst (shape X2))) 1 3.
Proof.
  apply (gradient_descent_broadcasts_scalar_y zero_draws X2 1 1 3).
  split; [reflexivity | repeat constructor].
Defined.

(** X24.  Even with a square bias-augmented matrix, a [y] shorter than
    the number of samples is read past its end by the first pass of
    [gradient_descent2]. *)
Theorem gradient_descent2_reads_past_short_y (junk : R) (draws : nat -> R)
  (X : ndarray2) (y : list R) (gamma : R) (n_iter : Z) :
  well_shaped X -> fst (shape X) = (snd (shape X) + 1)%nat ->
  (length y < fst (shape X))%nat -> (1 <= n_iter <= INT_MAX)%Z ->
  gradient_descent2 junk draws X y gamma n_iter = Raise OutOfBounds.
Proof.
  intros HX Hsq Hy Hn.
  rewrite gradient_descent2_unfold by (assumption || unfold INT_MIN; lia).
  pose proof (gd2_start_shaped junk draws X HX) as Hs.
  set (n := fst (shape X)) in *. set (P := snd (shape X)) in *.
  destruct (gd2_double_total n P _ Hs) as (s1 & E1 & Hs1); [lia | lia |].
  rewrite E1. cbn [bind].
  rewrite (for_range_fails (fun _ s => gd2_shaped n P s) _
             (range_len n_iter) O s1 OutOfBounds);
    [reflexivity | unfold range_len; lia | exact Hs1 | intros i t Hi; lia |].
  intros t Ht. unfold gd2_iteration.
  rewrite (for_range_fails (fun _ s => gd2_shaped n P s) _ n (length y) t
             OutOfBounds); [reflexivity | exact Hy | exact Ht | |].
  - intros j u Hj Hu.
    match goal with |- exists s', bind (for_range _ ?inner _) _ = _ /\ _ =>
      destruct (for_range_total inner (P + 1) 0) as (suma & Es)
    end.
    { intros k a Hk.
      destruct (load_nX_total n P u k j Hu) as (x & Ex); [lia | lia |].
      destruct (load_total OutOfBounds (w u) k) as (wk & Ew);
        [destruct Hu as (_ & _ & Hw & _); lia|].
      rewrite Ex, Ew. cbn [bind]. eauto. }
    rewrite Es. cbn [bind].
    destruct (load_total OutOfBounds y j) as (yj & Ey); [lia|].
    rewrite Ey. cbn [bind]. apply store_tmp_d_total; [assumption | lia].
  - intros u Hu.
    match goal with |- bind (for_range _ ?inner _) _ = _ =>
      destruct (for_range_total inner (P + 1) 0) as (suma & Es)
    end.
    { intros k a Hk.
      destruct (load_nX_total n P u k (length y) Hu) as (x & Ex); [lia | lia |].
      destruct (load_total OutOfBounds (w u) k) as (wk & Ew);
        [destruct Hu as (_ & _ & Hw & _); lia|].
      rewrite Ex, Ew. cbn [bind]. eauto. }
    rewrite Es. cbn [bind].
    rewrite load_out_of_range by lia. reflexivity.
Qed.

Lemma gradient_descent2_reads_past_short_y_witness :
  gradient_descent2 0 zero_draws X2 [1] 1 5 = Raise OutOfBounds.
Proof.
  apply (gradient_descent2_reads_past_short_y 0 zero_draws X2 [1] 1 5).
  - split; [reflexivity | repeat constructor].
  - reflexivity.
  - simpl. lia.
  - unfold INT_MAX. lia.
Defined.

(** ** The pendulum and the interpolated function *)

(** X25.  [pend] wants a state of two elements; on one, at rest at an
    integer multiple of [pi], it returns the zero vector (the equilibria
    of the pendulum), and for every state the derivative of the energy
    [omega^2/2 - c*cos(theta)] along what it returns is
    [-b*omega^2]. *)
Theorem pend_equilibria_and_dissipation (t b c : R) :
  (forall k : Z, pend [IZR k * PI; 0] t b c = Ok [0; 0]) /\
  (forall theta omega,
      exists dtheta domega,
        pend [theta; omega] t b c = Ok [dtheta; domega] /\
        omega * domega + c * sin theta * dtheta = - b * omega ^ 2) /\
  (forall y, length y <> 2%nat -> pend y t b c = Raise ValueError).
Proof.
  split; [|split].
  - intros k. unfold pend.
    assert (E : sin (IZR k * PI) = 0) by (apply sin_eq_0_1; exists k; reflexivity).
    rewrite E. do 3 f_equal. ring.
  - intros theta omega. eexists _, _. split; [reflexivity|]. ring.
  - intros [|a [|a' [|a'' y]]] Hy; cbn in Hy; try reflexivity. lia.
Qed.

(** X26.  [func] vanishes on the edges [x = 0], [x = 1] and [y = 0] of
    the unit square, and for [0 <= x <= 1] its absolute value is at most
    [1/4]. *)
Theorem func_bounded_on_unit_square (x y : R) :
  func 0 y = 0 /\ func 1 y = 0 /\ func x 0 = 0 /\
  (0 <= x <= 1 -> Rabs (func x y) <= 1 / 4).
Proof.
  unfold func. repeat split; try ring.
  - replace (4 * PI * 0 ^ 2) with 0 by ring. rewrite sin_0. ring.
  - intros Hx.
    pose proof (COS_bound (4 * PI * x)) as [Hc1 Hc2].
    pose proof (SIN_bound (4 * PI * y ^ 2)) as [Hs1 Hs2].
    set (co := cos (4 * PI * x)) in *. set (si := sin (4 * PI * y ^ 2)) in *.
    destruct Hx as [Hx0 Hx1].
    set (q := x * (1 - x)).
    assert (Hq : 0 <= q <= 1 / 4).
    { unfold q. pose proof (pow2_ge_0 (x - 1 / 2)). split; nra. }
    set (s2 := si ^ 2).
    assert (Hs : 0 <= s2 <= 1).
    { unfold s2. pose proof (pow2_ge_0 si). split; nra. }
    set (p := q * s2).
    assert (Hp : 0 <= p <= 1 / 4) by (unfold p; split; nra).
    replace (q * co * s2) with (p * co) by (unfold p; ring).
    apply Rabs_le. split; nra.
Qed.

(** ** What [print_array] prints *)

Section PrintArrayFacts.

Import String.
#[local] Open Scope string_scope.

(** The three lines for an array of shape [(3, 4)] and for a vector of
    twelve elements. *)
Lemma print_array_examples :
  PrintArray.print_array [3; 4]%nat
  = ["array ndim: 2"; "array shape: (3, 4)"; "array size: 12"] /\
  PrintArray.print_array [12]%nat
  = ["array ndim: 1"; "array shape: (12,)"; "array size: 12"].
Proof. split; reflexivity. Qed.

End PrintArrayFacts.
